(** * The pipeline example of AFF3CT: [examples/pipeline/src/main.cpp]

    The program builds a communication chain (source, splitter, encoder,
    modulator, channel, demodulator, decoder, monitor), wraps one task of
    each module into a pipeline [Block], binds the sockets of the blocks and
    then sweeps the Eb/N0 value: for every value it configures the noise,
    starts a watchdog thread, runs, joins and resets the blocks and reports.

    The embedding follows the code of [main.cpp].  The calls the main thread
    makes on its collaborators (the AFF3CT library, [common/Block.hpp]) are
    recorded as a trace of events; what those collaborators answer is read
    from a [world].  The watchdog thread has a trace of its own. *)

From Stdlib Require Import ZArith NArith List Bool Lia String.
From Stdlib Require Import Floats.SpecFloat.
Import ListNotations.

(** ** C++ [float]: IEEE-754 binary32, round to nearest even *)

Module F32.

Definition prec : Z := 24.
Definition emax : Z := 128.

Definition float : Type := spec_float.

(** conversion of an integer, as in [(float)k] *)
Definition of_Z (z : Z) : float := binary_normalize prec emax z 0 false.

Definition add : float -> float -> float := SFadd prec emax.
Definition div : float -> float -> float := SFdiv prec emax.
Definition ltb : float -> float -> bool := SFltb.

(** a decimal literal [n / d] with suffix [f]: the binary32 value nearest
    to the quotient, which is what the correctly rounded division of the
    two (exactly representable) integers gives *)
Definition literal (n d : Z) : float := div (of_Z n) (of_Z d).

End F32.

(** ** [struct params] *)

Record params : Type := {
  bl_buffer_size : N;          (* the circular buffer size in the pipeline blocks *)
  bl_n_threads   : N;          (* the number of threads in one pipeline block *)
  ebn0_min       : F32.float;  (* minimum SNR value *)
  ebn0_max       : F32.float;  (* maximum SNR value *)
  ebn0_step      : F32.float;  (* SNR step *)
  R              : F32.float   (* code rate (R=K/N) *)
}.

(** [params p;] : the five [const] members take their default member
    initialisers; [R] is indeterminate until [init_params] assigns it. *)
Definition params_ctor : params := {|
  bl_buffer_size := 16%N;
  bl_n_threads   := 1%N;
  ebn0_min       := F32.literal 0 100;
  ebn0_max       := F32.literal 1001 100;
  ebn0_step      := F32.literal 100 100;
  R              := S754_nan
|}.

Definition set_R (r : F32.float) (p : params) : params := {|
  bl_buffer_size := bl_buffer_size p;
  bl_n_threads   := bl_n_threads p;
  ebn0_min       := ebn0_min p;
  ebn0_max       := ebn0_max p;
  ebn0_step      := ebn0_step p;
  R              := r
|}.

(** ** Modules, tasks and blocks *)

(** The objects of [struct modules] ([m.codec] owns the encoder and the
    decoder that [m.encoder] and [m.decoder] point to). *)
Inductive module_id : Type :=
| MSource | MSplitter | MCodec | MModulator | MDemodulator | MChannel
| MMonitor | MEncoder | MDecoder.

Definition module_id_eqb (a b : module_id) : bool :=
  match a, b with
  | MSource, MSource | MSplitter, MSplitter | MCodec, MCodec
  | MModulator, MModulator | MDemodulator, MDemodulator
  | MChannel, MChannel | MMonitor, MMonitor | MEncoder, MEncoder
  | MDecoder, MDecoder => true
  | _, _ => false
  end.

(** The flags of an AFF3CT [module::Task] that [init_modules] touches.  The
    class is the library's; each setter stores its argument in the flag of
    its name and each getter reads it. *)
Record Task : Type := {
  autoalloc   : bool;
  autoexec    : bool;
  debug       : bool;
  debug_limit : Z;
  stats       : bool;
  fast        : bool
}.

Definition set_autoalloc (b : bool) (t : Task) : Task :=
  {| autoalloc := b; autoexec := autoexec t; debug := debug t;
     debug_limit := debug_limit t; stats := stats t; fast := fast t |}.
Definition set_autoexec (b : bool) (t : Task) : Task :=
  {| autoalloc := autoalloc t; autoexec := b; debug := debug t;
     debug_limit := debug_limit t; stats := stats t; fast := fast t |}.
Definition set_debug (b : bool) (t : Task) : Task :=
  {| autoalloc := autoalloc t; autoexec := autoexec t; debug := b;
     debug_limit := debug_limit t; stats := stats t; fast := fast t |}.
Definition set_debug_limit (n : Z) (t : Task) : Task :=
  {| autoalloc := autoalloc t; autoexec := autoexec t; debug := debug t;
     debug_limit := n; stats := stats t; fast := fast t |}.
Definition set_stats (b : bool) (t : Task) : Task :=
  {| autoalloc := autoalloc t; autoexec := autoexec t; debug := debug t;
     debug_limit := debug_limit t; stats := b; fast := fast t |}.
Definition set_fast (b : bool) (t : Task) : Task :=
  {| autoalloc := autoalloc t; autoexec := autoexec t; debug := debug t;
     debug_limit := debug_limit t; stats := stats t; fast := b |}.
Definition is_debug (t : Task) : bool := debug t.
Definition is_stats (t : Task) : bool := stats t.

(** the setter calls made on a task *)
Inductive task_call : Type :=
| SetAutoalloc (b : bool) | SetAutoexec (b : bool) | SetDebug (b : bool)
| SetDebugLimit (n : Z) | SetStats (b : bool) | SetFast (b : bool).

(** The eight [Block] objects of [main]. *)
Inductive block_id : Type :=
| bl_source | bl_encoder | bl_modulator | bl_channel
| bl_demodulator | bl_decoder | bl_splitter | bl_monitor.

Definition block_id_eqb (a b : block_id) : bool :=
  match a, b with
  | bl_source, bl_source | bl_encoder, bl_encoder
  | bl_modulator, bl_modulator | bl_channel, bl_channel
  | bl_demodulator, bl_demodulator | bl_decoder, bl_decoder
  | bl_splitter, bl_splitter | bl_monitor, bl_monitor => true
  | _, _ => false
  end.

(** [std::vector<Block*> blocks], in the order of its initialiser *)
Definition blocks : list block_id :=
  [bl_source; bl_encoder; bl_modulator; bl_channel;
   bl_demodulator; bl_decoder; bl_splitter; bl_monitor].

(** the module whose task a block wraps, and the name of that task *)
Definition block_task (b : block_id) : module_id * string :=
  match b with
  | bl_source      => (MSource,      "generate")
  | bl_encoder     => (MEncoder,     "encode")
  | bl_modulator   => (MModulator,   "modulate")
  | bl_channel     => (MChannel,     "add_noise")
  | bl_demodulator => (MDemodulator, "demodulate")
  | bl_decoder     => (MDecoder,     "decode_siho")
  | bl_splitter    => (MSplitter,    "split")
  | bl_monitor     => (MMonitor,     "check_errors")
  end%string.

(** ** Events *)

(** What the main thread does, call by call. *)
Inductive event : Type :=
| EBanner                                   (* the five lines of the banner *)
| EParse                                    (* tools::Command_parser cp(...) *)
| EPrintHelp | EPrintWarnings | EPrintErrors
| EExit (code : Z)                          (* std::exit(code) *)
| EPrintParameters
| EBuild (m : module_id)
| ESetCustomName (m : module_id) (name : string)
| ETask (m : module_id) (i : nat) (c : task_call)  (* a setter of task i of m *)
| EAddHandlerCheck                          (* Decoder::reset on m.decoder *)
| ENewNoise | ENewReporter (n : nat) | EBuildTerminal
| ELegend
| EBlockNew (b : block_id) (task : module_id * string)
            (buffer_size n_threads : N)
| EBind (consumer : block_id) (isock : string)
        (producer : block_id) (osock : string)
| ENoise (sigma ebn0 esn0 : F32.float)      (* u.noise->set_noise *)
| ESetNoise (m : module_id)                 (* m.X->set_noise of u.noise *)
| EStartTempReport
| ESpawnWatchdog                            (* std::thread th_done_verif *)
| ERun (b : block_id) | EJoin (b : block_id) | EReset (b : block_id)
| EJoinWatchdog                             (* th_done_verif.join() *)
| EFinalReport | EMonitorReset | ETerminalReset
| EIsOver (r : bool)                        (* u.terminal->is_over() *)
| EStatsShow | EEndOfSimulation
| EBlockDelete (b : block_id).              (* a block leaves its scope *)

(** What the watchdog thread does. *)
Inductive wevent : Type :=
| WPollFe (r : bool)          (* m.monitor->fe_limit_achieved() *)
| WPollInterrupt (r : bool)   (* u.terminal->is_interrupt() *)
| WSetDone.                   (* is_done = true *)

(** ** The world: what the collaborators of [main.cpp] answer *)

Record world : Type := {
  parsing_failed : bool;                 (* cp.parsing_failed() *)
  codec_K        : Z;                    (* p.codec->enc->K *)
  codec_N_cw     : Z;                    (* p.codec->enc->N_cw *)
  modem_bps      : Z;                    (* p.modem->bps *)
  modem_cpm_upf  : Z;                    (* p.modem->cpm_upf *)
  ebn0_to_esn0   : F32.float -> F32.float -> Z -> F32.float;
  esn0_to_sigma  : F32.float -> Z -> F32.float;
  built          : module_id -> list Task;  (* the tasks of a built module *)
  (* iteration k, round n of the watchdog:
     (fe_limit_achieved(), is_interrupt()) *)
  poll           : nat -> nat -> bool * bool;
  is_over        : nat -> bool           (* is_over() at the end of iteration k *)
}.

(** ** [init_params] *)

(** A call either returns or ends the process through [std::exit]. *)
Inductive outcome (A : Type) : Type :=
| Returned (a : A)
| Exited (code : Z).
Arguments Returned {A} a.
Arguments Exited {A} code.

Definition init_params (w : world) (p : params) : list event * outcome params :=
  if parsing_failed w
  then ([EParse; EPrintHelp; EPrintWarnings; EPrintErrors; EExit 1], Exited 1%Z)
  else ([EParse; EPrintParameters; EPrintWarnings],
        Returned (set_R (F32.div (F32.of_Z (codec_K w)) (F32.of_Z (codec_N_cw w))) p)).

(** ** [init_modules] *)

(** [struct modules]: the tasks of every module *)
Definition modules : Type := module_id -> list Task.

Definition upd (m : module_id) (ts : list Task) (st : modules) : modules :=
  fun m' => if module_id_eqb m' m then ts else st m'.

(** [m.list], in the order of its initialiser *)
Definition m_list : list module_id :=
  [MSource; MSplitter; MModulator; MDemodulator;
   MChannel; MMonitor; MEncoder; MDecoder].

(** the five setters of the loop body, in order *)
Definition configure (t : Task) : Task :=
  set_stats true
    (set_debug_limit 16
       (set_debug false
          (set_autoexec false
             (set_autoalloc true t)))).

Definition configure_calls : list task_call :=
  [SetAutoalloc true; SetAutoexec false; SetDebug false;
   SetDebugLimit 16; SetStats true].

(** the condition of the [if] that guards [set_fast(true)] *)
Definition fast_guard (t : Task) : bool :=
  negb (is_debug t) && negb (is_stats t).

(** the body of the inner loop, on one task *)
Definition config_task (t : Task) : Task * list task_call :=
  let t1 := configure t in
  if fast_guard t1
  then (set_fast true t1, configure_calls ++ [SetFast true])
  else (t1, configure_calls).

(** [for (auto& tsk : mod->tasks)] *)
Fixpoint config_tasks (m : module_id) (i : nat) (ts : list Task)
  : list Task * list event :=
  match ts with
  | [] => ([], [])
  | t :: ts' =>
      let (t', cs) := config_task t in
      let (ts'', evs) := config_tasks m (S i) ts' in
      (t' :: ts'', map (ETask m i) cs ++ evs)
  end.

(** [for (auto& mod : m.list)] *)
Fixpoint config_modules (l : list module_id) (st : modules)
  : modules * list event :=
  match l with
  | [] => (st, [])
  | m :: l' =>
      let (ts, e1) := config_tasks m 0 (st m) in
      let (st', e2) := config_modules l' (upd m ts st) in
      (st', e1 ++ e2)
  end.

Definition init_modules (w : world) : modules * list event :=
  let (st, evs) := config_modules m_list (built w) in
  (st,
   [EBuild MSource; EBuild MSplitter; EBuild MCodec; EBuild MModulator;
    EBuild MDemodulator; EBuild MChannel; EBuild MMonitor;
    ESetCustomName MModulator "Modulator";
    ESetCustomName MDemodulator "Demodulator"]
   ++ evs ++ [EAddHandlerCheck]).

(** ** [init_utils] *)

Definition init_utils : list event :=
  [ENewNoise; ENewReporter 0; ENewReporter 1; ENewReporter 2; EBuildTerminal].

(** ** Blocks and socket bindings *)

(** the eight declarations [Block bl_x(task, p.bl_buffer_size, p.bl_n_threads)] *)
Definition new_blocks (p : params) : list event :=
  map (fun b => EBlockNew b (block_task b) (bl_buffer_size p) (bl_n_threads p))
      blocks.

Record binding : Type := {
  b_consumer : block_id;
  b_isock    : string;
  b_producer : block_id;
  b_osock    : string
}.

Definition graph : Type := list binding.

(** the eight calls [consumer.bind(isock, producer, osock)], in order *)
Definition bind_calls : list binding := [
  {| b_consumer := bl_splitter;    b_isock := "U_K";  b_producer := bl_source;      b_osock := "U_K"  |};
  {| b_consumer := bl_encoder;     b_isock := "U_K";  b_producer := bl_splitter;    b_osock := "V_K1" |};
  {| b_consumer := bl_modulator;   b_isock := "X_N1"; b_producer := bl_encoder;     b_osock := "X_N"  |};
  {| b_consumer := bl_channel;     b_isock := "X_N";  b_producer := bl_modulator;   b_osock := "X_N2" |};
  {| b_consumer := bl_demodulator; b_isock := "Y_N1"; b_producer := bl_channel;     b_osock := "Y_N"  |};
  {| b_consumer := bl_decoder;     b_isock := "Y_N";  b_producer := bl_demodulator; b_osock := "Y_N2" |};
  {| b_consumer := bl_monitor;     b_isock := "U";    b_producer := bl_splitter;    b_osock := "V_K2" |};
  {| b_consumer := bl_monitor;     b_isock := "V";    b_producer := bl_decoder;     b_osock := "V_K"  |}
]%string.

Definition bind_events : list event :=
  map (fun e => EBind (b_consumer e) (b_isock e) (b_producer e) (b_osock e))
      bind_calls.













(** an edge of the block graph *)
Definition edge (g : graph) (a b : block_id) : Prop :=
  exists e, In e g /\ b_producer e = a /\ b_consumer e = b.

(** a non-empty path of edges *)
Inductive path (g : graph) : block_id -> block_id -> Prop :=
| path_edge a b : edge g a b -> path g a b
| path_step a b c : edge g a b -> path g b c -> path g a c.

(** ** The watchdog thread [th_done_verif] *)

(** the stop condition the watchdog waits for *)
Definition stop_requested (o : bool * bool) : bool := fst o || snd o.

(** One evaluation of the loop condition
    [!m.monitor->fe_limit_achieved() && !u.terminal->is_interrupt()]:
    [&&] asks the terminal only when the monitor has answered [false]. *)
Definition round_events (o : bool * bool) : list wevent :=
  WPollFe (fst o) :: (if negb (fst o) then [WPollInterrupt (snd o)] else []).

Definition loop_condition (o : bool * bool) : bool :=
  negb (fst o) && negb (snd o).

Arguments round_events o : simpl never.
Arguments loop_condition o : simpl never.

(** [while (cond);  is_done = true;] from round [n] on; [None] when the loop
    is still spinning after [fuel] rounds *)
Fixpoint th_done_verif (fuel : nat) (obs : nat -> bool * bool) (n : nat)
  : option (list wevent) :=
  match fuel with
  | O => None
  | S fuel' =>
      if loop_condition (obs n)
      then option_map (app (round_events (obs n))) (th_done_verif fuel' obs (S n))
      else Some (round_events (obs n) ++ [WSetDone])
  end.

(** the value of [is_done] ([false] at its declaration) after the watchdog
    has done [t] *)
Definition is_done_after (t : list wevent) : bool :=
  fold_left (fun d e => match e with WSetDone => true | _ => d end) t false.

(** ** One iteration of the sweep *)

Record iteration : Type := {
  it_index    : nat;          (* number of the iteration, from 0 *)
  it_ebn0     : F32.float;    (* the value of [ebn0] *)
  it_main     : list event;   (* what the main thread does *)
  it_watchdog : list wevent;  (* what the watchdog thread does *)
  it_done     : bool          (* [is_done] when the watchdog is joined *)
}.

(** the main thread in the loop body, given the answer of [is_over] *)
Definition body_events (w : world) (p : params) (k : nat) (ebn0 : F32.float)
  : list event :=
  let esn0  := ebn0_to_esn0 w ebn0 (R p) (modem_bps w) in
  let sigma := esn0_to_sigma w esn0 (modem_cpm_upf w) in
  [ENoise sigma ebn0 esn0;
   ESetNoise MCodec; ESetNoise MDemodulator; ESetNoise MChannel;
   EStartTempReport;
   ESpawnWatchdog]
  ++ map ERun blocks
  ++ map EJoin blocks
  ++ map EReset blocks
  ++ [EJoinWatchdog;
      EFinalReport;
      EMonitorReset; ETerminalReset;
      EIsOver (is_over w k)].

(** The loop body.  [th_done_verif.join()] returns once the watchdog has
    left its loop; when it never does, neither does the body. *)
Definition loop_body (wfuel : nat) (w : world) (p : params) (k : nat)
  (ebn0 : F32.float) : option iteration :=
  match th_done_verif wfuel (poll w k) 0 with
  | None => None
  | Some wt =>
      Some {| it_index := k; it_ebn0 := ebn0;
              it_main := body_events w p k ebn0;
              it_watchdog := wt;
              it_done := is_done_after wt |}
  end.

(** ** The sweep *)

(** [for (auto ebn0 = p.ebn0_min; ebn0 < p.ebn0_max; ebn0 += p.ebn0_step)]
    entered at iteration [k] with value [ebn0]; the body ends with
    [if (u.terminal->is_over()) break;] *)
Fixpoint sweep (fuel wfuel : nat) (w : world) (p : params) (k : nat)
  (ebn0 : F32.float) : option (list iteration) :=
  match fuel with
  | O => None
  | S fuel' =>
      if F32.ltb ebn0 (ebn0_max p) then
        match loop_body wfuel w p k ebn0 with
        | None => None
        | Some it =>
            if is_over w k then Some [it]
            else option_map (cons it)
                   (sweep fuel' wfuel w p (S k) (F32.add ebn0 (ebn0_step p)))
        end
      else Some []
  end.

(** ** [main] *)

(** what a run of the program leaves behind *)
Record run : Type := {
  prelude   : list event;      (* the main thread before the sweep *)
  iters     : list iteration;  (* the iterations of the sweep *)
  postlude  : list event;      (* the main thread after the sweep *)
  exit_code : Z                (* the exit status of the process *)
}.

(** everything the main thread does *)
Definition trace (r : run) : list event :=
  prelude r ++ flat_map it_main (iters r) ++ postlude r.

(** the values of [ebn0] the sweep visits *)
Definition visited (r : run) : list F32.float := map it_ebn0 (iters r).

(** [main] with [fuel] tests of the loop of the sweep and [fuel] rounds for
    each watchdog; [None] when that is not enough for it to return.  The
    calls on the blocks are taken to return. *)
Definition main (fuel : nat) (w : world) : option run :=
  match init_params w params_ctor with
  | (t1, Exited code) =>
      Some {| prelude := EBanner :: t1; iters := []; postlude := [];
              exit_code := code |}
  | (t1, Returned p) =>
      let (m, t2) := init_modules w in
      match sweep fuel fuel w p 0 (ebn0_min p) with
      | None => None
      | Some its =>
          Some {| prelude := EBanner :: t1 ++ t2 ++ init_utils ++ [ELegend]
                             ++ new_blocks p ++ bind_events;
                  iters := its;
                  postlude := [EStatsShow; EEndOfSimulation]
                              ++ map EBlockDelete (rev blocks);
                  exit_code := 0 |}
      end
  end.

(** ** Worlds to run the model on *)

Definition a_task : Task :=
  {| autoalloc := false; autoexec := true; debug := true; debug_limit := 0;
     stats := false; fast := false |}.

(** parsing succeeds, the monitor reaches its limit at the third round of
    every iteration, nobody interrupts *)
Definition quiet_world : world := {|
  parsing_failed := false;
  codec_K := 32; codec_N_cw := 128; modem_bps := 1; modem_cpm_upf := 1;
  ebn0_to_esn0 := fun e _ _ => e;
  esn0_to_sigma := fun e _ => e;
  built := fun _ => [a_task; a_task];
  poll := fun _ n => (Nat.leb 2 n, false);
  is_over := fun _ => false
|}.

(** the user interrupts iteration 1 once (and the terminal does not report
    [is_over]) *)
Definition interrupt_world : world := {|
  parsing_failed := false;
  codec_K := 32; codec_N_cw := 128; modem_bps := 1; modem_cpm_upf := 1;
  ebn0_to_esn0 := fun e _ _ => e;
  esn0_to_sigma := fun e _ => e;
  built := fun _ => [a_task];
  poll := fun k n => if Nat.eqb k 1 then (false, Nat.leb 1 n) else (Nat.leb 2 n, false);
  is_over := fun _ => false
|}.

(** the user interrupts iteration 0 twice: the terminal reports [is_over] *)
Definition abort_world : world := {|
  parsing_failed := false;
  codec_K := 32; codec_N_cw := 128; modem_bps := 1; modem_cpm_upf := 1;
  ebn0_to_esn0 := fun e _ _ => e;
  esn0_to_sigma := fun e _ => e;
  built := fun _ => [a_task];
  poll := fun _ n => (false, Nat.leb 1 n);
  is_over := fun k => Nat.eqb k 0
|}.

(** the command line does not parse *)
Definition bad_args_world : world := {|
  parsing_failed := true;
  codec_K := 0; codec_N_cw := 0; modem_bps := 0; modem_cpm_upf := 0;
  ebn0_to_esn0 := fun e _ _ => e;
  esn0_to_sigma := fun e _ => e;
  built := fun _ => [];
  poll := fun _ _ => (false, false);
  is_over := fun _ => false
|}.

(** ** Vocabulary of the properties *)

(** how many elements of [l] satisfy [P] *)
Definition count {A : Type} (P : A -> bool) (l : list A) : nat :=
  List.length (filter P l).

(** every [P]-event of [l] comes before every [Q]-event of [l] *)
Definition all_before (P Q : event -> bool) (l : list event) : Prop :=
  forall i j a b,
    nth_error l i = Some a -> nth_error l j = Some b ->
    P a = true -> Q b = true -> i < j.

Fixpoint all_beforeb (P Q : event -> bool) (l : list event) : bool :=
  match l with
  | [] => true
  | a :: l' =>
      (if Q a then negb (P a) && negb (existsb P l') else true)
      && all_beforeb P Q l'
  end.

Definition is_run (e : event) : bool :=
  match e with ERun _ => true | _ => false end.
Definition is_join (e : event) : bool :=
  match e with EJoin _ => true | _ => false end.
Definition is_reset (e : event) : bool :=
  match e with EReset _ => true | _ => false end.
Definition is_spawn (e : event) : bool :=
  match e with ESpawnWatchdog => true | _ => false end.
Definition is_build (e : event) : bool :=
  match e with EBuild _ => true | _ => false end.
Definition is_block_new (e : event) : bool :=
  match e with EBlockNew _ _ _ _ => true | _ => false end.
Definition is_block_delete (e : event) : bool :=
  match e with EBlockDelete _ => true | _ => false end.
Definition is_set_fast (e : event) : bool :=
  match e with ETask _ _ (SetFast _) => true | _ => false end.
Definition is_final_report (e : event) : bool :=
  match e with EFinalReport => true | _ => false end.

(** the noise configuration of an iteration *)
Definition is_noise_config (e : event) : bool :=
  match e with ENoise _ _ _ | ESetNoise _ => true | _ => false end.

(** the reporting of an iteration *)
Definition is_reporting (e : event) : bool :=
  match e with
  | EFinalReport | EMonitorReset | ETerminalReset => true
  | _ => false
  end.

Definition run_of (b : block_id) (e : event) : bool :=
  match e with ERun b' => block_id_eqb b' b | _ => false end.
Definition join_of (b : block_id) (e : event) : bool :=
  match e with EJoin b' => block_id_eqb b' b | _ => false end.
Definition reset_of (b : block_id) (e : event) : bool :=
  match e with EReset b' => block_id_eqb b' b | _ => false end.

(** [l] has run, joined and reset block [b] equally often: nothing of [b]
    is in flight after [l] *)
Definition settled (b : block_id) (l : list event) : Prop :=
  count (run_of b) l = count (join_of b) l /\
  count (join_of b) l = count (reset_of b) l.

Definition settledb (l : list event) : bool :=
  forallb (fun b =>
             Nat.eqb (count (run_of b) l) (count (join_of b) l)
             && Nat.eqb (count (join_of b) l) (count (reset_of b) l))
          blocks.

(** at every [P]-event of [l], every block is settled in what [l] has done
    before it *)
Definition quiet_at (P : event -> bool) (l : list event) : Prop :=
  forall j e, nth_error l j = Some e -> P e = true ->
              forall b, settled b (firstn j l).

Fixpoint quiet_from (P : event -> bool) (pre l : list event) : bool :=
  match l with
  | [] => true
  | e :: l' =>
      (if P e then settledb pre else true) && quiet_from P (pre ++ [e]) l'
  end.

Definition config_or_report (e : event) : bool :=
  is_noise_config e || is_reporting e.

(** [n] is the first round at which the watchdog sees its stop condition *)
Definition first_stop (obs : nat -> bool * bool) (n : nat) : Prop :=
  stop_requested (obs n) = true /\
  forall m, m < n -> stop_requested (obs m) = false.

(** the polls of the rounds [n], [n+1], ..., [n+d-1] *)
Fixpoint rounds (obs : nat -> bool * bool) (n d : nat) : list wevent :=
  match d with
  | O => []
  | S d' => round_events (obs n) ++ rounds obs (S n) d'
  end.

(** a read of one of the two predicates: the watchdog waits on nothing, it
    reads and, in the end, writes the flag *)
Definition is_poll (e : wevent) : bool :=
  match e with WPollFe _ | WPollInterrupt _ => true | WSetDone => false end.

(** the [i]-th value of [ebn0]: [e], [e + step], [(e + step) + step], ... *)
Definition nth_ebn0 (p : params) (e : F32.float) (i : nat) : F32.float :=
  Nat.iter i (fun x => F32.add x (ebn0_step p)) e.

(** the edges of the chain, producer first *)
Definition chain_edges : list (block_id * block_id) :=
  [(bl_source, bl_splitter); (bl_splitter, bl_encoder);
   (bl_encoder, bl_modulator); (bl_modulator, bl_channel);
   (bl_channel, bl_demodulator); (bl_demodulator, bl_decoder);
   (bl_splitter, bl_monitor); (bl_decoder, bl_monitor)].

(** a numbering of the blocks along the chain *)
Definition rank (b : block_id) : nat :=
  match b with
  | bl_source => 0 | bl_splitter => 1 | bl_encoder => 2 | bl_modulator => 3
  | bl_channel => 4 | bl_demodulator => 5 | bl_decoder => 6 | bl_monitor => 7
  end.

(** is there a binding from an output of [a] to an input of [b]? *)
Definition edgeb (g : graph) (a b : block_id) : bool :=
  existsb (fun e => block_id_eqb (b_producer e) a
                    && block_id_eqb (b_consumer e) b) g.

(** the parameters after [init_params] has returned *)
Definition params_of (w : world) : params :=
  set_R (F32.div (F32.of_Z (codec_K w)) (F32.of_Z (codec_N_cw w))) params_ctor.

(** a call that starts, awaits or clears the work of a block *)
Definition in_flight (e : event) : bool := is_run e || is_join e || is_reset e.

Definition is_task (e : event) : bool :=
  match e with ETask _ _ _ => true | _ => false end.

(** the modules [main] calls [set_noise] on *)
Definition noise_dependent : list module_id := [MCodec; MDemodulator; MChannel].

(** the values 0, 1, ..., 10 as [float] *)
Definition default_values : list F32.float :=
  map F32.of_Z [0; 1; 2; 3; 4; 5; 6; 7; 8; 9; 10]%Z.

(** is every value of [l] less than the next one? *)
Fixpoint increasing (l : list F32.float) : bool :=
  match l with
  | x :: (y :: _) as l' => F32.ltb x y && increasing l'
  | _ => true
  end.

Definition empty_run : run :=
  {| prelude := []; iters := []; postlude := []; exit_code := 0 |}.

(** the run of [main], when [fuel] is enough for it to return *)
Definition run_of_main (fuel : nat) (w : world) : run :=
  match main fuel w with Some r => r | None => empty_run end.

(** the main thread before the sweep, when the command line parses: up to
    the configuration of the tasks, that configuration, and what follows *)
Definition before_tasks : list event :=
  [EBanner; EParse; EPrintParameters; EPrintWarnings;
   EBuild MSource; EBuild MSplitter; EBuild MCodec; EBuild MModulator;
   EBuild MDemodulator; EBuild MChannel; EBuild MMonitor;
   ESetCustomName MModulator "Modulator";
   ESetCustomName MDemodulator "Demodulator"].

Definition task_events (w : world) : list event :=
  snd (config_modules m_list (built w)).

Definition after_tasks (w : world) : list event :=
  [EAddHandlerCheck] ++ init_utils ++ [ELegend]
  ++ new_blocks (params_of w) ++ bind_events.

(** the main thread after the sweep *)
Definition after_sweep : list event :=
  [EStatsShow; EEndOfSimulation] ++ map EBlockDelete (rev blocks).

(** a placeholder where a list has no iteration *)
Definition no_iteration : iteration :=
  {| it_index := 0; it_ebn0 := S754_nan; it_main := []; it_watchdog := [];
     it_done := false |}.

Definition is_add_handler (e : event) : bool :=
  match e with EAddHandlerCheck => true | _ => false end.

(** ** Further vocabulary *)

(** the setter calls of the loop on the [n] tasks of module [m] numbered
    from [i] on: the five calls of the body, task after task *)
Definition module_calls (m : module_id) (i n : nat) : list event :=
  flat_map (fun j => map (ETask m j) configure_calls) (seq i n).

(** [n] rounds of the watchdog in which the monitor and the terminal both
    answer no *)
Fixpoint silent_rounds (n : nat) : list wevent :=
  match n with
  | O => []
  | S n' => WPollFe false :: WPollInterrupt false :: silent_rounds n'
  end.

(** the round that ends the loop: the monitor says yes and the terminal is
    not asked, or the monitor says no and the terminal says yes *)
Definition stopping_round (by_monitor : bool) : list wevent :=
  if by_monitor then [WPollFe true] else [WPollFe false; WPollInterrupt true].

Definition is_poll_fe (e : wevent) : bool :=
  match e with WPollFe _ => true | _ => false end.
Definition is_poll_interrupt (e : wevent) : bool :=
  match e with WPollInterrupt _ => true | _ => false end.


(** the monitor never reaches its limit and nobody interrupts *)
Definition stuck_world : world := {|
  parsing_failed := false;
  codec_K := 32; codec_N_cw := 128; modem_bps := 1; modem_cpm_upf := 1;
  ebn0_to_esn0 := fun e _ _ => e;
  esn0_to_sigma := fun e _ => e;
  built := fun _ => [a_task];
  poll := fun _ _ => (false, false);
  is_over := fun _ => false
|}.

(** ** Lifetimes *)

(** the objects the main thread brings to life and works on; [OWatchdog] is
    the running thread [th_done_verif] *)
Inductive object : Type :=
| OModule (m : module_id)
| ONoise
| OReporter (n : nat)
| OTerminal
| OBlock (b : block_id)
| OWatchdog.

Definition object_eqb (a b : object) : bool :=
  match a, b with
  | OModule m, OModule m' => module_id_eqb m m'
  | ONoise, ONoise | OTerminal, OTerminal | OWatchdog, OWatchdog => true
  | OReporter n, OReporter n' => Nat.eqb n n'
  | OBlock b, OBlock b' => block_id_eqb b b'
  | _, _ => false
  end.

Definition alive (o : object) (live : list object) : bool :=
  existsb (object_eqb o) live.

(** what a call brings to life; the codec comes with its encoder and its
    decoder, to which [m.encoder] and [m.decoder] point *)
Definition creates (e : event) : list object :=
  match e with
  | EBuild MCodec => [OModule MCodec; OModule MEncoder; OModule MDecoder]
  | EBuild m => [OModule m]
  | ENewNoise => [ONoise]
  | ENewReporter n => [OReporter n]
  | EBuildTerminal => [OTerminal]
  | EBlockNew b _ _ _ => [OBlock b]
  | ESpawnWatchdog => [OWatchdog]
  | _ => []
  end.

(** the objects a call is made on or hands over; the watchdog works on the
    monitor and the terminal *)
Definition uses (e : event) : list object :=
  match e with
  | ESetCustomName m _ => [OModule m]
  | ETask m _ _ => [OModule m]
  | EAddHandlerCheck => [OModule MMonitor; OModule MDecoder]
  | ENewReporter 0 => [ONoise]
  | ENewReporter _ => [OModule MMonitor]
  | EBuildTerminal => [OReporter 0; OReporter 1; OReporter 2]
  | ELegend | EStartTempReport | EFinalReport | ETerminalReset | EIsOver _ =>
      [OTerminal]
  | EBlockNew _ task _ _ => [OModule (fst task)]
  | EBind c _ p _ => [OBlock c; OBlock p]
  | ENoise _ _ _ => [ONoise]
  | ESetNoise m => [OModule m; ONoise]
  | ESpawnWatchdog => [OModule MMonitor; OTerminal]
  | ERun b | EJoin b | EReset b | EBlockDelete b => [OBlock b]
  | EJoinWatchdog => [OWatchdog]
  | EMonitorReset => [OModule MMonitor]
  | EStatsShow => map OBlock blocks
  | _ => []
  end.

(** what a call ends *)
Definition ends (e : event) : list object :=
  match e with
  | EJoinWatchdog => [OWatchdog]
  | EBlockDelete b => [OBlock b]
  | _ => []
  end.

(** a call goes well when what it uses is alive and what it creates is not *)
Definition step_live (live : list object) (e : event) : option (list object) :=
  if forallb (fun o => alive o live) (uses e)
     && forallb (fun o => negb (alive o live)) (creates e)
  then Some (creates e ++ filter (fun o => negb (alive o (ends e))) live)
  else None.

Fixpoint run_live (l : list event) (live : list object)
  : option (list object) :=
  match l with
  | [] => Some live
  | e :: l' =>
      match step_live live e with
      | None => None
      | Some live' => run_live l' live'
      end
  end.

Definition live_after (l : list event) : list object :=
  match run_live l [] with Some live => live | None => [] end.

(** what is alive once the tasks are configured, once the blocks are bound
    and during the sweep, and when [main] returns *)
Definition live_configured : list object := live_after before_tasks.
Definition live_wired : list object :=
  live_after (before_tasks ++ after_tasks quiet_world).
Definition live_at_end : list object :=
  live_after (before_tasks ++ after_tasks quiet_world ++ after_sweep).

Definition is_stats_show (e : event) : bool :=
  match e with EStatsShow => true | _ => false end.

Definition is_set_done (e : wevent) : bool :=
  match e with WSetDone => true | _ => false end.






(** ** Generic facts on lists and counts *)

Lemma count_app {A : Type} (P : A -> bool) (l1 l2 : list A) :
  count P (l1 ++ l2) = count P l1 + count P l2.
Proof. unfold count. now rewrite filter_app, length_app. Qed.

Lemma filter_none {A : Type} (P : A -> bool) (l : list A) :
  Forall (fun a => P a = false) l -> filter P l = [].
Proof.
  induction 1 as [|a l Ha _ IH]; simpl; [reflexivity|].
  now rewrite Ha.
Qed.

Lemma count_none {A : Type} (P : A -> bool) (l : list A) :
  Forall (fun a => P a = false) l -> count P l = 0.
Proof. intros H. unfold count. now rewrite filter_none. Qed.


Lemma all_beforeb_sound (P Q : event -> bool) (l : list event) :
  all_beforeb P Q l = true -> all_before P Q l.
Proof.
  induction l as [|x l IH]; intros H i j a b Hi Hj Pa Qb.
  - destruct i; discriminate.
  - simpl in H. apply andb_true_iff in H as [Hx Hl].
    destruct j as [|j].
    + simpl in Hj. injection Hj as ->. rewrite Qb in Hx.
      apply andb_true_iff in Hx as [HPb Hex].
      destruct i as [|i].
      * simpl in Hi. injection Hi as ->. rewrite Pa in HPb. discriminate.
      * simpl in Hi. apply nth_error_In in Hi.
        assert (existsb P l = true) as E
            by (apply existsb_exists; exists a; auto).
        rewrite E in Hex. discriminate.
    + destruct i as [|i]; [lia|].
      simpl in Hi, Hj. specialize (IH Hl i j a b Hi Hj Pa Qb). lia.
Qed.

(** ** [init_modules]: the flags of the tasks *)

Lemma fast_guard_configure (t : Task) : fast_guard (configure t) = false.
Proof. reflexivity. Qed.

Lemma config_task_eq (t : Task) : config_task t = (configure t, configure_calls).
Proof. unfold config_task. now rewrite fast_guard_configure. Qed.

Lemma config_tasks_fst (m : module_id) (ts : list Task) :
  forall i, fst (config_tasks m i ts) = map configure ts.
Proof.
  induction ts as [|t ts IH]; intros i; cbn [config_tasks]; [reflexivity|].
  rewrite config_task_eq. specialize (IH (S i)).
  destruct (config_tasks m (S i) ts) as [ts' evs]. simpl in *. now rewrite IH.
Qed.

(** the loop emits the five setter calls of [configure_calls], on tasks *)
Lemma config_tasks_snd (P : event -> Prop) (m : module_id) (ts : list Task) :
  (forall i c, In c configure_calls -> P (ETask m i c)) ->
  forall i, Forall P (snd (config_tasks m i ts)).
Proof.
  intros HP.
  induction ts as [|t ts IH]; intros i; cbn [config_tasks]; [constructor|].
  rewrite config_task_eq. specialize (IH (S i)).
  destruct (config_tasks m (S i) ts) as [ts' evs]. cbn [snd] in *.
  apply Forall_app. split; [|exact IH].
  apply Forall_forall. intros e He. apply in_map_iff in He as (c & <- & Hc).
  now apply HP.
Qed.

Lemma module_id_eqb_eq (a b : module_id) : module_id_eqb a b = true <-> a = b.
Proof. split; [destruct a, b; simpl; congruence | intros ->; now destruct b]. Qed.

Lemma config_modules_other (l : list module_id) :
  forall st m, ~ In m l -> fst (config_modules l st) m = st m.
Proof.
  induction l as [|x l IH]; intros st m Hm; simpl; [reflexivity|].
  destruct (config_tasks x 0 (st x)) as [ts e1].
  specialize (IH (upd x ts st) m).
  destruct (config_modules l (upd x ts st)) as [st' e2]. simpl in *.
  rewrite IH by tauto. unfold upd.
  destruct (module_id_eqb m x) eqn:E; [|reflexivity].
  apply module_id_eqb_eq in E. subst. tauto.
Qed.

Lemma config_modules_get (l : list module_id) :
  forall st m, NoDup l -> In m l ->
               fst (config_modules l st) m = map configure (st m).
Proof.
  induction l as [|x l IH]; intros st m Hnd Hm; [destruct Hm|].
  inversion Hnd as [|? ? Hx Hl]; subst. simpl.
  pose proof (config_tasks_fst x (st x) 0) as Hts.
  destruct (config_tasks x 0 (st x)) as [ts e1]. simpl in Hts. subst ts.
  pose proof (config_modules_other l (upd x (map configure (st x)) st)) as Ho.
  specialize (IH (upd x (map configure (st x)) st)).
  destruct (config_modules l (upd x (map configure (st x)) st)) as [st' e2].
  simpl in *. destruct Hm as [-> | Hm].
  - rewrite Ho by assumption. unfold upd.
    now replace (module_id_eqb m m) with true by (now destruct m).
  - rewrite IH by assumption. unfold upd.
    destruct (module_id_eqb m x) eqn:E; [|reflexivity].
    apply module_id_eqb_eq in E. subst. contradiction.
Qed.

Lemma config_modules_snd (P : event -> Prop) (l : list module_id) :
  (forall m i c, In c configure_calls -> P (ETask m i c)) ->
  forall st, Forall P (snd (config_modules l st)).
Proof.
  intros HP.
  induction l as [|x l IH]; intros st; simpl; [constructor|].
  pose proof (config_tasks_snd P x (st x) (HP x) 0) as H1.
  destruct (config_tasks x 0 (st x)) as [ts e1].
  specialize (IH (upd x ts st)).
  destruct (config_modules l (upd x ts st)) as [st' e2]. simpl in *.
  apply Forall_app. now split.
Qed.

Lemma m_list_NoDup : NoDup m_list.
Proof.
  unfold m_list.
  repeat (constructor; [simpl; intuition discriminate|]). constructor.
Qed.

Lemma init_modules_fst (w : world) (m : module_id) :
  In m m_list -> fst (init_modules w) m = map configure (built w m).
Proof.
  intros Hm. unfold init_modules.
  pose proof (@config_modules_get m_list (built w) m m_list_NoDup Hm) as H.
  destruct (config_modules m_list (built w)) as [st evs]. exact H.
Qed.

Lemma task_events_no_set_fast (w : world) :
  Forall (fun e => is_set_fast e = false) (task_events w).
Proof.
  apply config_modules_snd. intros m i c Hc. simpl in Hc.
  repeat (destruct Hc as [<- | Hc]; [reflexivity|]). destruct Hc.
Qed.

Lemma task_events_tasks (w : world) :
  Forall (fun e => is_task e = true) (task_events w).
Proof. apply config_modules_snd. reflexivity. Qed.

Lemma init_modules_no_set_fast (w : world) :
  Forall (fun e => is_set_fast e = false) (snd (init_modules w)).
Proof.
  unfold init_modules.
  pose proof (task_events_no_set_fast w) as H. unfold task_events in H.
  destruct (config_modules m_list (built w)) as [st evs]. simpl in *.
  repeat (constructor; [reflexivity|]).
  apply Forall_app. split; [exact H | repeat constructor].
Qed.

(** C10: after [init_modules], every task of every module of [m.list] has
    automatic allocation on, auto-execution off, debug off and statistics
    on; the condition that guards [set_fast(true)] is false on it, its fast
    flag is the one it was built with, and no [set_fast] call is made.  The
    modules keep their tasks, so this covers every task that was built. *)
Theorem init_modules_task_flags (w : world) (m : module_id) (i : nat) (t' : Task) :
  In m m_list ->
  nth_error (fst (init_modules w) m) i = Some t' ->
  (autoalloc t' = true /\ autoexec t' = false /\ debug t' = false
   /\ stats t' = true)
  /\ fast_guard t' = false
  /\ (exists t, nth_error (built w m) i = Some t /\ fast t' = fast t)
  /\ List.length (fst (init_modules w) m) = List.length (built w m)
  /\ count is_set_fast (snd (init_modules w)) = 0.
Proof.
  intros Hm Hi. rewrite (@init_modules_fst w m Hm) in *.
  rewrite nth_error_map in Hi.
  destruct (nth_error (built w m) i) as [t|] eqn:Et; [|discriminate].
  injection Hi as <-.
  repeat split.
  - exists t. split; reflexivity.
  - apply length_map.
  - apply count_none, init_modules_no_set_fast.
Qed.

Lemma init_modules_task_flags_witness :
  In MDecoder m_list /\
  nth_error (fst (init_modules quiet_world) MDecoder) 1
  = Some (configure a_task) /\
  fast_guard (configure a_task) = false.
Proof.
  assert (In MDecoder m_list) as Hm by (simpl; tauto).
  assert (nth_error (fst (init_modules quiet_world) MDecoder) 1
          = Some (configure a_task)) as Hi by reflexivity.
  split; [exact Hm|]. split; [exact Hi|].
  exact (proj1 (proj2 (@init_modules_task_flags quiet_world MDecoder 1 _ Hm Hi))).
Defined.

(** ** The graph of the bindings *)

Lemma block_id_eqb_eq (a b : block_id) : block_id_eqb a b = true <-> a = b.
Proof. split; [destruct a, b; simpl; congruence | intros ->; now destruct b]. Qed.

Lemma edgeb_spec (g : graph) (a b : block_id) :
  edgeb g a b = true <-> edge g a b.
Proof.
  unfold edgeb, edge. rewrite existsb_exists. split.
  - intros (e & He & H). apply andb_true_iff in H as [H1 H2].
    apply block_id_eqb_eq in H1, H2. now exists e.
  - intros (e & He & H1 & H2). exists e. split; [assumption|].
    apply andb_true_iff. split; now apply block_id_eqb_eq.
Qed.

Lemma edge_chain (a b : block_id) :
  edge bind_calls a b <-> In (a, b) chain_edges.
Proof.
  rewrite <- edgeb_spec.
  destruct a, b; vm_compute; split; intros H;
    solve [ reflexivity | discriminate | tauto
          | repeat (destruct H as [H | H]; [discriminate H|]); destruct H ].
Qed.

Lemma edge_rank (a b : block_id) : edge bind_calls a b -> rank a < rank b.
Proof.
  rewrite edge_chain. simpl.
  intros H.
  repeat (destruct H as [H | H]; [injection H as <- <-; simpl; lia|]).
  destruct H.
Qed.



Lemma chain_edge_in (a b : block_id) :
  In (a, b) chain_edges -> edge bind_calls a b.
Proof. apply edge_chain. Qed.












(** ** The watchdog *)

Lemma loop_condition_stop (o : bool * bool) :
  loop_condition o = negb (stop_requested o).
Proof. unfold loop_condition, stop_requested. now rewrite negb_orb. Qed.

Lemma round_events_poll (o : bool * bool) :
  Forall (fun e => is_poll e = true) (round_events o).
Proof.
  unfold round_events. destruct (negb (fst o)); repeat constructor.
Qed.

Lemma rounds_poll (obs : nat -> bool * bool) (d : nat) :
  forall n, Forall (fun e => is_poll e = true) (rounds obs n d).
Proof.
  induction d as [|d IH]; intros n; cbn [rounds]; [constructor|].
  apply Forall_app. split; [apply round_events_poll | apply IH].
Qed.

Lemma is_done_after_polls (t : list wevent) :
  Forall (fun e => is_poll e = true) t -> is_done_after t = false.
Proof.
  unfold is_done_after. induction 1 as [|e t He _ IH]; simpl; [reflexivity|].
  destruct e; [exact IH | exact IH | discriminate].
Qed.

Lemma is_done_after_set (t : list wevent) : is_done_after (t ++ [WSetDone]) = true.
Proof. unfold is_done_after. now rewrite fold_left_app. Qed.

(** When the watchdog leaves its loop it has polled the rounds up to the
    first one that shows the stop condition, and has then set the flag. *)
Lemma th_done_verif_sound (fuel : nat) (obs : nat -> bool * bool) :
  forall n t,
    th_done_verif fuel obs n = Some t ->
    exists d, d < fuel
              /\ stop_requested (obs (n + d)) = true
              /\ (forall m, n <= m < n + d -> stop_requested (obs m) = false)
              /\ t = rounds obs n (S d) ++ [WSetDone].
Proof.
  induction fuel as [|fuel IH]; intros n t H; [discriminate|].
  cbn [th_done_verif] in H. rewrite loop_condition_stop in H.
  destruct (stop_requested (obs n)) eqn:E; cbn [negb] in H.
  - injection H as <-. exists 0. rewrite Nat.add_0_r.
    repeat split; [lia | assumption | intros; lia |].
    cbn [rounds]. now rewrite app_nil_r.
  - destruct (th_done_verif fuel obs (S n)) as [t'|] eqn:E'; [|discriminate].
    cbn [option_map] in H. injection H as <-.
    destruct (IH _ _ E') as (d & Hd & Hs & Hm & ->).
    exists (S d). replace (n + S d) with (S n + d) by lia.
    repeat split; [lia | assumption | |].
    + intros m Hm'. destruct (Nat.eq_dec m n) as [-> | Hne];
        [assumption | apply Hm; lia].
    + change (rounds obs n (S (S d)))
        with (round_events (obs n) ++ rounds obs (S n) (S d)).
      now rewrite app_assoc.
Qed.

Lemma th_done_verif_complete (obs : nat -> bool * bool) (d : nat) :
  forall n fuel,
    d < fuel ->
    stop_requested (obs (n + d)) = true ->
    (forall m, n <= m < n + d -> stop_requested (obs m) = false) ->
    th_done_verif fuel obs n = Some (rounds obs n (S d) ++ [WSetDone]).
Proof.
  induction d as [|d IH]; intros n fuel Hf Hs Hm;
    (destruct fuel as [|fuel]; [lia|]); cbn [th_done_verif];
    rewrite loop_condition_stop.
  - rewrite Nat.add_0_r in Hs. rewrite Hs. cbn [negb rounds].
    now rewrite app_nil_r.
  - rewrite (Hm n) by lia. cbn [negb].
    rewrite (IH (S n) fuel); [| lia | now replace (S n + d) with (n + S d) by lia
                              | intros; apply Hm; lia ].
    cbn [option_map]. change (rounds obs n (S (S d)))
      with (round_events (obs n) ++ rounds obs (S n) (S d)).
    now rewrite app_assoc.
Qed.

(** As long as the stop condition has not shown, the watchdog is in its loop. *)
Lemma th_done_verif_spinning (fuel : nat) (obs : nat -> bool * bool) :
  forall n,
    (forall m, n <= m < n + fuel -> stop_requested (obs m) = false) ->
    th_done_verif fuel obs n = None.
Proof.
  induction fuel as [|fuel IH]; intros n H; [reflexivity|].
  cbn [th_done_verif]. rewrite loop_condition_stop, (H n) by lia. cbn [negb].
  rewrite IH; [reflexivity | intros; apply H; lia].
Qed.

Lemma first_stop_exists (obs : nat -> bool * bool) (n : nat) :
  stop_requested (obs n) = true -> exists n0, n0 <= n /\ first_stop obs n0.
Proof.
  induction n as [n IH] using lt_wf_ind. intros Hn.
  destruct (forallb (fun m => negb (stop_requested (obs m))) (seq 0 n)) eqn:E.
  - exists n. split; [lia|]. split; [assumption|].
    intros m Hm. rewrite forallb_forall in E.
    specialize (E m). rewrite in_seq in E.
    apply negb_true_iff, E. lia.
  - assert (exists m, m < n /\ stop_requested (obs m) = true) as (m & Hm & Hs).
    { clear IH Hn. induction n as [|n IHn]; [discriminate|].
      rewrite seq_S, forallb_app in E. simpl in E.
      destruct (forallb (fun m => negb (stop_requested (obs m))) (seq 0 n)).
      - exists n. split; [lia|].
        destruct (stop_requested (obs n)); [reflexivity | discriminate].
      - destruct (IHn eq_refl) as (m & Hm & Hs). exists m. split; [lia|assumption]. }
    destruct (IH m Hm Hs) as (n0 & Hle & H0). exists n0. split; [lia|assumption].
Qed.

Lemma th_done_verif_total (obs : nat -> bool * bool) (n fuel : nat) :
  stop_requested (obs n) = true -> n < fuel ->
  exists t, th_done_verif fuel obs 0 = Some t.
Proof.
  intros Hs Hf. destruct (first_stop_exists obs n Hs) as (n0 & Hle & H1 & H2).
  eexists. apply (th_done_verif_complete obs n0 0 fuel);
    [lia | exact H1 | intros; apply H2; lia].
Qed.

(** the rounds in the words of the source *)

Lemma rounds_snoc (obs : nat -> bool * bool) (d : nat) :
  forall k, rounds obs k (S d) = rounds obs k d ++ round_events (obs (k + d)).
Proof.
  induction d as [|d IH]; intros k.
  - cbn [rounds]. now rewrite Nat.add_0_r, app_nil_r.
  - change (rounds obs k (S (S d)))
      with (round_events (obs k) ++ rounds obs (S k) (S d)).
    rewrite IH. cbn [rounds]. rewrite <- app_assoc.
    now replace (S k + d) with (k + S d) by lia.
Qed.

Lemma rounds_silent (obs : nat -> bool * bool) (d : nat) :
  forall k,
    (forall m, k <= m < k + d -> stop_requested (obs m) = false) ->
    rounds obs k d = silent_rounds d.
Proof.
  induction d as [|d IH]; intros k H; [reflexivity|].
  cbn [rounds silent_rounds]. rewrite IH by (intros; apply H; lia).
  specialize (H k ltac:(lia)). unfold stop_requested in H.
  apply orb_false_iff in H as [H1 H2].
  unfold round_events. now rewrite H1, H2.
Qed.

Lemma count_silent_rounds (n : nat) :
  count is_poll_fe (silent_rounds n) = n
  /\ count is_poll_interrupt (silent_rounds n) = n.
Proof.
  induction n as [|n [IH1 IH2]]; [split; reflexivity|].
  unfold count in *. cbn [silent_rounds filter is_poll_fe is_poll_interrupt].
  cbn [Datatypes.length]. now rewrite IH1, IH2.
Qed.

(** the actions of a watchdog that has left its loop, round by round *)
Lemma th_done_verif_shape (fuel : nat) (obs : nat -> bool * bool)
  (t : list wevent) :
  th_done_verif fuel obs 0 = Some t ->
  exists n,
    n < fuel
    /\ first_stop obs n
    /\ t = rounds obs 0 (S n) ++ [WSetDone]
    /\ rounds obs 0 (S n) = silent_rounds n ++ stopping_round (fst (obs n)).
Proof.
  intros H.
  destruct (th_done_verif_sound _ _ _ _ H) as (n & Hn & Hs & Hb & ->).
  simpl in Hs. exists n. split; [assumption|].
  split; [split; [assumption | intros m Hm; apply Hb; lia]|].
  split; [reflexivity|].
  rewrite rounds_snoc, (rounds_silent obs n 0) by (intros; apply Hb; lia).
  simpl (0 + n). f_equal.
  unfold round_events, stopping_round, stop_requested in *.
  destruct (fst (obs n)); [reflexivity|]. simpl in Hs. now rewrite Hs.
Qed.

Lemma Forall_firstn_gen {A : Type} (P : A -> Prop) (k : nat) (l : list A) :
  Forall P l -> Forall P (firstn k l).
Proof.
  intros H. apply Forall_forall. intros a Ha.
  rewrite Forall_forall in H. apply H.
  rewrite <- (firstn_skipn k l). apply in_or_app. now left.
Qed.

(** the flag is set by the last action and by no earlier one *)
Lemma is_done_after_prefix (polls : list wevent) (k : nat) :
  Forall (fun e => is_poll e = true) polls ->
  is_done_after (firstn k (polls ++ [WSetDone])) = true
  <-> List.length (polls ++ [WSetDone]) <= k.
Proof.
  intros H. rewrite length_app. simpl.
  destruct (Nat.le_gt_cases k (List.length polls)) as [Hle | Hgt].
  - rewrite firstn_app. replace (k - List.length polls) with 0 by lia.
    simpl. rewrite app_nil_r.
    rewrite (is_done_after_polls _ (Forall_firstn_gen _ k polls H)).
    split; [discriminate | lia].
  - rewrite firstn_all2 by (rewrite length_app; simpl; lia).
    rewrite is_done_after_set. split; [lia | reflexivity].
Qed.

(** ** The sweep *)

Lemma loop_body_inv (wfuel : nat) (w : world) (p : params) (k : nat)
  (e : F32.float) (it : iteration) :
  loop_body wfuel w p k e = Some it ->
  it_index it = k /\ it_ebn0 it = e /\ it_main it = body_events w p k e
  /\ th_done_verif wfuel (poll w k) 0 = Some (it_watchdog it)
  /\ it_done it = is_done_after (it_watchdog it).
Proof.
  unfold loop_body. destruct (th_done_verif wfuel (poll w k) 0); [|discriminate].
  intros H. injection H as <-. simpl. tauto.
Qed.

Lemma nth_ebn0_shift (p : params) (e : F32.float) (i : nat) :
  nth_ebn0 p (F32.add e (ebn0_step p)) i = nth_ebn0 p e (S i).
Proof. unfold nth_ebn0. now rewrite Nat.iter_succ_r. Qed.

Section Sweep.

Variables (wfuel : nat) (w : world) (p : params).

(** the [i]-th iteration of a sweep that returns: its value passed the
    test of the loop, it is the loop body at that value, and it is the
    last one exactly when [is_over] holds after it or the next value
    fails the test *)
Lemma sweep_nth (fuel : nat) :
  forall k e its,
    sweep fuel wfuel w p k e = Some its ->
    forall i it,
      nth_error its i = Some it ->
      F32.ltb (nth_ebn0 p e i) (ebn0_max p) = true
      /\ loop_body wfuel w p (k + i) (nth_ebn0 p e i) = Some it
      /\ (is_over w (k + i) = true -> List.length its = S i)
      /\ (is_over w (k + i) = false ->
          (F32.ltb (nth_ebn0 p e (S i)) (ebn0_max p) = true
           <-> S i < List.length its)).
Proof.
  induction fuel as [|fuel IH]; intros k e its H i it Hi; [discriminate|].
  simpl in H.
  destruct (F32.ltb e (ebn0_max p)) eqn:Elt;
    [| injection H as <-; destruct i; discriminate].
  destruct (loop_body wfuel w p k e) as [it0|] eqn:Eb; [|discriminate].
  destruct (is_over w k) eqn:Eo.
  - injection H as <-. destruct i as [|i]; [|destruct i; discriminate].
    injection Hi as <-. rewrite Nat.add_0_r.
    repeat split; try assumption; try reflexivity; congruence.
  - destruct (sweep fuel wfuel w p (S k) (F32.add e (ebn0_step p)))
      as [rest|] eqn:Er; [|discriminate].
    injection H as <-. destruct i as [|i].
    + injection Hi as <-. rewrite Nat.add_0_r.
      repeat split; try assumption; try congruence.
      * intros Hnext. simpl.
        destruct rest as [|it1 rest]; [|simpl; lia].
        destruct fuel as [|fuel']; [discriminate|]. simpl in Er.
        change (nth_ebn0 p e 1) with (F32.add e (ebn0_step p)) in Hnext.
        rewrite Hnext in Er.
        destruct (loop_body wfuel w p (S k) (F32.add e (ebn0_step p)));
          [|discriminate].
        destruct (is_over w (S k)); [discriminate|].
        destruct (sweep fuel' wfuel w p (S (S k))
                    (F32.add (F32.add e (ebn0_step p)) (ebn0_step p)));
          discriminate.
      * intros Hlen. simpl in Hlen.
        destruct rest as [|it1 rest]; [simpl in Hlen; lia|].
        destruct (IH _ _ _ Er 0 it1 eq_refl) as (H0 & _). exact H0.
    + simpl in Hi. destruct (IH _ _ _ Er i it Hi) as (H1 & H2 & H3 & H4).
      rewrite nth_ebn0_shift in H1, H2. rewrite nth_ebn0_shift in H4.
      replace (k + S i) with (S k + i) by lia.
      repeat split; try assumption.
      * intros Ho. simpl. now rewrite H3.
      * intros Hnext. simpl. apply H4 in Hnext; [lia|assumption].
      * intros Hlen. simpl in Hlen. apply H4; [assumption|lia].
Qed.

(** a sweep that returns without [is_over] stopped at a value that fails
    the test of the loop *)
Lemma sweep_end (fuel : nat) :
  forall k e its,
    sweep fuel wfuel w p k e = Some its ->
    (forall i, i < List.length its -> is_over w (k + i) = false) ->
    F32.ltb (nth_ebn0 p e (List.length its)) (ebn0_max p) = false.
Proof.
  induction fuel as [|fuel IH]; intros k e its H Ho; [discriminate|].
  simpl in H.
  destruct (F32.ltb e (ebn0_max p)) eqn:Elt;
    [| injection H as <-; exact Elt].
  destruct (loop_body wfuel w p k e) as [it0|]; [|discriminate].
  destruct (is_over w k) eqn:Eo.
  - injection H as <-. specialize (Ho 0). simpl in Ho.
    rewrite Nat.add_0_r in Ho. rewrite Ho in Eo by lia. discriminate.
  - destruct (sweep fuel wfuel w p (S k) (F32.add e (ebn0_step p)))
      as [rest|] eqn:Er; [|discriminate].
    injection H as <-. cbn [Datatypes.length]. rewrite <- nth_ebn0_shift.
    apply (IH _ _ _ Er). intros i Hi.
    replace (S k + i) with (k + S i) by lia. apply Ho. simpl. lia.
Qed.

(** the sweep returns when the watchdog of each iteration leaves its loop
    and some value fails the test of the loop *)
Lemma sweep_total (fuel : nat) :
  forall k e i,
    i < fuel ->
    F32.ltb (nth_ebn0 p e i) (ebn0_max p) = false ->
    (forall j, j < i -> exists t, th_done_verif wfuel (poll w (k + j)) 0 = Some t) ->
    exists its, sweep fuel wfuel w p k e = Some its.
Proof.
  induction fuel as [|fuel IH]; intros k e i Hi Hlt Hw; [lia|].
  simpl. destruct (F32.ltb e (ebn0_max p)) eqn:Elt; [|now exists []].
  destruct i as [|i]; [simpl in Hlt; congruence|].
  unfold loop_body. destruct (Hw 0 ltac:(lia)) as (t & Ht).
  rewrite Nat.add_0_r in Ht. rewrite Ht.
  destruct (is_over w k); [eexists; reflexivity|].
  rewrite <- nth_ebn0_shift in Hlt.
  destruct (IH (S k) (F32.add e (ebn0_step p)) i ltac:(lia) Hlt) as (its & Hits).
  - intros j Hj. replace (S k + j) with (k + S j) by lia. apply Hw. lia.
  - rewrite Hits. eexists. reflexivity.
Qed.

End Sweep.

(** ** Settled blocks *)

Lemma settledb_sound (l : list event) :
  settledb l = true -> forall b, settled b l.
Proof.
  unfold settledb, settled. rewrite forallb_forall. intros H b.
  assert (In b blocks) as Hb by (destruct b; simpl; tauto).
  specialize (H b Hb). apply andb_true_iff in H as [H1 H2].
  now apply Nat.eqb_eq in H1, H2.
Qed.

Lemma settled_app (b : block_id) (l1 l2 : list event) :
  settled b l1 -> settled b l2 -> settled b (l1 ++ l2).
Proof. unfold settled. rewrite !count_app. lia. Qed.

Lemma in_flight_count (Q : event -> bool) (l : list event) :
  (forall e, Q e = true -> in_flight e = true) ->
  Forall (fun e => in_flight e = false) l -> count Q l = 0.
Proof.
  intros HQ H. apply count_none. revert H. apply Forall_impl.
  intros e He. destruct (Q e) eqn:E; [|reflexivity].
  apply HQ in E. congruence.
Qed.

Lemma idle_settled (l : list event) (b : block_id) :
  Forall (fun e => in_flight e = false) l -> settled b l.
Proof.
  intros H. unfold settled.
  rewrite !(in_flight_count _ l) by
    (assumption || (intros [] He; try discriminate He; reflexivity)).
  split; reflexivity.
Qed.

Lemma Forall_firstn_event (P : event -> Prop) (j : nat) (l : list event) :
  Forall P l -> Forall P (firstn j l).
Proof.
  intros H. apply Forall_forall. intros e He.
  rewrite Forall_forall in H. apply H.
  rewrite <- (firstn_skipn j l). apply in_or_app. now left.
Qed.

Lemma idle_quiet (P : event -> bool) (l : list event) :
  Forall (fun e => in_flight e = false) l -> quiet_at P l.
Proof.
  intros H j e _ _ b. apply idle_settled. now apply Forall_firstn_event.
Qed.

Lemma quiet_from_sound (P : event -> bool) (l : list event) :
  forall pre,
    quiet_from P pre l = true ->
    forall j e, nth_error l j = Some e -> P e = true ->
                settledb (pre ++ firstn j l) = true.
Proof.
  induction l as [|x l IH]; intros pre H j e Hj He; [destruct j; discriminate|].
  simpl in H. apply andb_true_iff in H as [Hx Hl].
  destruct j as [|j].
  - simpl in Hj. injection Hj as ->. rewrite He in Hx.
    simpl. now rewrite app_nil_r.
  - simpl in Hj. specialize (IH _ Hl j e Hj He).
    simpl. now rewrite <- app_assoc in IH.
Qed.

Lemma quiet_fromb_sound (P : event -> bool) (l : list event) :
  quiet_from P [] l = true -> quiet_at P l.
Proof.
  intros H j e Hj He. apply settledb_sound.
  exact (quiet_from_sound P l [] H j e Hj He).
Qed.

Lemma quiet_at_app (P : event -> bool) (l1 l2 : list event) :
  (forall b, settled b l1) -> quiet_at P l1 -> quiet_at P l2 ->
  quiet_at P (l1 ++ l2).
Proof.
  intros Hs H1 H2 j e Hj He b.
  destruct (Nat.lt_ge_cases j (List.length l1)) as [Hlt | Hge].
  - rewrite nth_error_app1 in Hj by assumption.
    rewrite firstn_app.
    replace (j - List.length l1) with 0 by lia. simpl. rewrite app_nil_r.
    exact (H1 j e Hj He b).
  - rewrite nth_error_app2 in Hj by assumption.
    rewrite firstn_app, (firstn_all2 l1) by assumption.
    apply settled_app; [apply Hs | exact (H2 _ e Hj He b)].
Qed.

Lemma quiet_at_flat_map {A : Type} (P : event -> bool) (f : A -> list event)
  (l : list A) :
  Forall (fun a => (forall b, settled b (f a)) /\ quiet_at P (f a)) l ->
  (forall b, settled b (flat_map f l)) /\ quiet_at P (flat_map f l).
Proof.
  induction 1 as [|a l [Hs Hq] _ [IHs IHq]]; simpl.
  - split; [intros b; split; reflexivity | intros j e Hj; destruct j; discriminate].
  - split; [intros b; now apply settled_app | now apply quiet_at_app].
Qed.

(** ** The loop body *)

Section Body.

Variables (w : world) (p : params) (k : nat) (e : F32.float).

Lemma body_runs : filter is_run (body_events w p k e) = map ERun blocks.
Proof. reflexivity. Qed.

Lemma body_joins : filter is_join (body_events w p k e) = map EJoin blocks.
Proof. reflexivity. Qed.

Lemma body_resets : filter is_reset (body_events w p k e) = map EReset blocks.
Proof. reflexivity. Qed.

Lemma body_noise :
  filter is_noise_config (body_events w p k e)
  = ENoise (esn0_to_sigma w (ebn0_to_esn0 w e (R p) (modem_bps w))
                          (modem_cpm_upf w))
           e
           (ebn0_to_esn0 w e (R p) (modem_bps w))
    :: map ESetNoise noise_dependent.
Proof. reflexivity. Qed.

Lemma body_reporting :
  filter is_reporting (body_events w p k e)
  = [EFinalReport; EMonitorReset; ETerminalReset].
Proof. reflexivity. Qed.

Lemma body_spawn : count is_spawn (body_events w p k e) = 1.
Proof. reflexivity. Qed.


Lemma body_order (P Q : event -> bool) :
  all_beforeb P Q (body_events w p k e) = true ->
  all_before P Q (body_events w p k e).
Proof. apply all_beforeb_sound. Qed.

Lemma body_settled (b : block_id) : settled b (body_events w p k e).
Proof. now apply settledb_sound. Qed.

Lemma body_quiet : quiet_at config_or_report (body_events w p k e).
Proof. now apply quiet_fromb_sound. Qed.

End Body.

(** ** Runs of [main] *)

Lemma init_params_ok (w : world) :
  parsing_failed w = false ->
  init_params w params_ctor
  = ([EParse; EPrintParameters; EPrintWarnings], Returned (params_of w)).
Proof. intros H. unfold init_params. now rewrite H. Qed.

Lemma init_modules_snd (w : world) :
  snd (init_modules w)
  = [EBuild MSource; EBuild MSplitter; EBuild MCodec; EBuild MModulator;
     EBuild MDemodulator; EBuild MChannel; EBuild MMonitor;
     ESetCustomName MModulator "Modulator";
     ESetCustomName MDemodulator "Demodulator"]
    ++ task_events w ++ [EAddHandlerCheck].
Proof.
  unfold init_modules, task_events.
  now destruct (config_modules m_list (built w)).
Qed.

Lemma main_ok (fuel : nat) (w : world) (r : run) :
  parsing_failed w = false -> main fuel w = Some r ->
  sweep fuel fuel w (params_of w) 0 (ebn0_min (params_of w)) = Some (iters r)
  /\ prelude r = before_tasks ++ task_events w ++ after_tasks w
  /\ postlude r = after_sweep
  /\ exit_code r = 0%Z.
Proof.
  intros Hp H. unfold main in H. rewrite (init_params_ok w Hp) in H.
  pose proof (init_modules_snd w) as Hm.
  destruct (init_modules w) as [m t2]. cbn [snd] in Hm. subst t2.
  destruct (sweep fuel fuel w (params_of w) 0 (ebn0_min (params_of w)))
    as [its|]; [|discriminate].
  injection H as <-. cbn [iters prelude postlude exit_code].
  repeat split. unfold before_tasks, after_tasks.
  cbn [app]. now rewrite <- !app_assoc.
Qed.

Lemma all_before_app (P Q : event -> bool) (l1 l2 : list event) :
  Forall (fun e => Q e = false) l1 -> Forall (fun e => P e = false) l2 ->
  all_before P Q (l1 ++ l2).
Proof.
  intros H1 H2 i j a b Hi Hj Pa Qb.
  rewrite Forall_forall in H1, H2.
  destruct (Nat.lt_ge_cases i (List.length l1)) as [Hlt | Hge].
  - destruct (Nat.lt_ge_cases j (List.length l1)) as [Hlt' | Hge']; [|lia].
    rewrite nth_error_app1 in Hj by assumption.
    apply nth_error_In, H1 in Hj. congruence.
  - rewrite nth_error_app2 in Hi by assumption.
    apply nth_error_In, H2 in Hi. congruence.
Qed.

Section Run.

Variables (fuel : nat) (w : world) (r : run).
Hypothesis Hparse : parsing_failed w = false.
Hypothesis Hmain : main fuel w = Some r.

Lemma run_nth (i : nat) (it : iteration) :
  nth_error (iters r) i = Some it ->
  F32.ltb (nth_ebn0 (params_of w) (ebn0_min (params_of w)) i)
          (ebn0_max (params_of w)) = true
  /\ it_index it = i
  /\ it_ebn0 it = nth_ebn0 (params_of w) (ebn0_min (params_of w)) i
  /\ it_main it = body_events w (params_of w) i (it_ebn0 it)
  /\ th_done_verif fuel (poll w i) 0 = Some (it_watchdog it)
  /\ it_done it = is_done_after (it_watchdog it).
Proof.
  intros Hi. destruct (main_ok fuel w r Hparse Hmain) as (Hs & _).
  destruct (sweep_nth fuel w (params_of w) fuel _ _ _ Hs i it Hi)
    as (Hlt & Hb & _).
  apply loop_body_inv in Hb. simpl in Hb.
  destruct Hb as (H1 & H2 & H3 & H4 & H5). rewrite H2.
  repeat split; assumption.
Qed.

Lemma run_trace :
  trace r = (before_tasks ++ task_events w ++ after_tasks w)
            ++ flat_map it_main (iters r) ++ after_sweep.
Proof.
  destruct (main_ok fuel w r Hparse Hmain) as (_ & Hpre & Hpost & _).
  unfold trace. now rewrite Hpre, Hpost.
Qed.

Lemma run_bodies (P : list event -> Prop) :
  (forall k e, P (body_events w (params_of w) k e)) ->
  Forall (fun it => P (it_main it)) (iters r).
Proof.
  intros HP. apply Forall_forall. intros it Hit.
  apply In_nth_error in Hit as (i & Hi).
  destruct (run_nth i it Hi) as (_ & _ & _ & -> & _). apply HP.
Qed.

Lemma prelude_Forall (P : event -> Prop) :
  (forall m i c, P (ETask m i c)) ->
  Forall P before_tasks -> Forall P (after_tasks w) ->
  Forall P (before_tasks ++ task_events w ++ after_tasks w).
Proof.
  intros Ht Hb Ha. apply Forall_app. split; [assumption|].
  apply Forall_app. split; [|assumption].
  generalize (task_events_tasks w). apply Forall_impl.
  intros [] He; try discriminate He. apply Ht.
Qed.



Lemma sweep_Forall (P : event -> Prop) :
  (forall k e, Forall P (body_events w (params_of w) k e)) ->
  Forall P (flat_map it_main (iters r)).
Proof.
  intros HP. apply Forall_flat_map. now apply (run_bodies (Forall P)).
Qed.

(** C1: every iteration starts one watchdog thread.  The thread reads the
    two predicates round after round, nothing else, as long as neither
    holds: in each such round it asks the monitor [fe_limit_achieved] and,
    on its no, the terminal [is_interrupt]; it is still in its loop after
    any number of such rounds.  At the first round at which one of the two
    holds (the terminal is not asked when the monitor says yes) it sets
    [is_done], which is its last action and was false after each earlier
    one, and is over. *)
Theorem watchdog_per_iteration (i : nat) (it : iteration) :
  nth_error (iters r) i = Some it ->
  count is_spawn (it_main it) = 1
  /\ all_before is_spawn is_run (it_main it)
  /\ th_done_verif fuel (poll w i) 0 = Some (it_watchdog it)
  /\ exists n,
      first_stop (poll w i) n
      /\ it_watchdog it = rounds (poll w i) 0 (S n) ++ [WSetDone]
      /\ Forall (fun e => is_poll e = true) (rounds (poll w i) 0 (S n))
      /\ is_done_after (rounds (poll w i) 0 (S n)) = false
      /\ it_done it = true
      /\ (forall fuel', fuel' <= n -> th_done_verif fuel' (poll w i) 0 = None)
      /\ it_watchdog it
         = silent_rounds n ++ stopping_round (fst (poll w i n)) ++ [WSetDone]
      /\ count is_poll_fe (it_watchdog it) = S n
      /\ count is_poll_interrupt (it_watchdog it)
         = (if fst (poll w i n) then n else S n)
      /\ count is_set_done (it_watchdog it) = 1
      /\ (forall k, is_done_after (firstn k (it_watchdog it)) = true
                    <-> List.length (it_watchdog it) <= k).
Proof.
  intros Hi. destruct (run_nth i it Hi) as (_ & _ & _ & Hm & Hw & Hd).
  rewrite Hm. split; [apply body_spawn|].
  split; [now apply body_order|]. split; [exact Hw|].
  destruct (th_done_verif_shape _ _ _ Hw) as (n & _ & Hfs & Ht & Hshape).
  pose proof (rounds_poll (poll w i) (S n) 0) as Hpolls.
  destruct (count_silent_rounds n) as [C1 C2].
  exists n.
  split; [exact Hfs|]. split; [exact Ht|]. split; [exact Hpolls|].
  split; [now apply is_done_after_polls|].
  split; [rewrite Hd, Ht; apply is_done_after_set|].
  split; [intros fuel' Hf; apply th_done_verif_spinning;
          intros m Hm'; apply (proj2 Hfs); lia|].
  split; [rewrite Ht, Hshape; now rewrite <- app_assoc|].
  split; [rewrite Ht, Hshape, !count_app, C1; unfold stopping_round;
          destruct (fst (poll w i n)); cbn; lia|].
  split; [rewrite Ht, Hshape, !count_app, C2; unfold stopping_round;
          destruct (fst (poll w i n)); cbn; lia|].
  split.
  - rewrite Ht, count_app, (count_none is_set_done); [reflexivity|].
    revert Hpolls. apply Forall_impl. intros [] He; try reflexivity.
    discriminate He.
  - intros k. rewrite Ht. now apply is_done_after_prefix.
Qed.

(** C2: in every iteration the eight blocks are run, then joined, then
    reset, each time in the order of [blocks]; every run comes before
    every join, every join before every reset, every reset before the
    report and the resets of the monitor and of the terminal.  Over the
    whole run, whenever the noise is configured or a report is made every
    block has been run, joined and reset equally often. *)
Theorem join_then_reset :
  (forall i it,
      nth_error (iters r) i = Some it ->
      filter is_run (it_main it) = map ERun blocks
      /\ filter is_join (it_main it) = map EJoin blocks
      /\ filter is_reset (it_main it) = map EReset blocks
      /\ all_before is_run is_join (it_main it)
      /\ all_before is_join is_reset (it_main it)
      /\ all_before is_reset is_reporting (it_main it))
  /\ quiet_at config_or_report (trace r).
Proof.
  split.
  - intros i it Hi. destruct (run_nth i it Hi) as (_ & _ & _ & -> & _).
    repeat split;
      solve [ apply body_runs | apply body_joins | apply body_resets
            | now apply body_order ].
  - rewrite run_trace.
    assert (Forall (fun e => in_flight e = false)
                   (before_tasks ++ task_events w ++ after_tasks w)) as Hpre
        by (apply prelude_Forall; [reflexivity | repeat constructor ..]).
    apply quiet_at_app;
      [intros b; now apply idle_settled | now apply idle_quiet |].
    destruct (quiet_at_flat_map config_or_report it_main (iters r)) as [Hs Hq].
    { apply (run_bodies (fun l => (forall b, settled b l)
                                  /\ quiet_at config_or_report l)).
      intros k e. split; [intros b; apply body_settled | apply body_quiet]. }
    apply quiet_at_app; [assumption | assumption |].
    apply idle_quiet. repeat constructor.
Qed.

(** C4: every iteration computes [esn0] and [sigma] from its [ebn0], sets
    them in the noise object and passes that to the codec, the demodulator
    and the channel, all before it runs the first of the eight blocks. *)
Theorem noise_before_run (i : nat) (it : iteration) :
  nth_error (iters r) i = Some it ->
  let p := params_of w in
  let esn0 := ebn0_to_esn0 w (it_ebn0 it) (R p) (modem_bps w) in
  let sigma := esn0_to_sigma w esn0 (modem_cpm_upf w) in
  filter is_noise_config (it_main it)
  = ENoise sigma (it_ebn0 it) esn0 :: map ESetNoise noise_dependent
  /\ all_before is_noise_config is_run (it_main it)
  /\ filter is_run (it_main it) = map ERun blocks
  /\ R p = F32.div (F32.of_Z (codec_K w)) (F32.of_Z (codec_N_cw w)).
Proof.
  intros Hi. destruct (run_nth i it Hi) as (_ & _ & _ & Hm & _).
  cbv zeta. rewrite Hm.
  repeat split; solve [ apply body_noise | apply body_runs
                      | now apply body_order ].
Qed.



End Run.

(** ** Interrupts *)

(** C3: when the terminal answers [is_interrupt] in some round of an
    iteration, the watchdog has set [is_done] by that round; the iteration
    then still makes its final report, after the blocks are reset, and asks
    [is_over].  If the answer is no and the next value passes the test of
    the loop, the next value is run; if the answer is yes, the iteration is
    the last one of the sweep. *)
Theorem interrupt_semantics (fuel : nat) (w : world) (r : run)
  (i : nat) (it : iteration) :
  parsing_failed w = false ->
  main fuel w = Some r ->
  nth_error (iters r) i = Some it ->
  let p := params_of w in
  (forall n, snd (poll w i n) = true ->
             exists n0, n0 <= n
                        /\ it_watchdog it = rounds (poll w i) 0 (S n0) ++ [WSetDone])
  /\ it_done it = true
  /\ count is_final_report (it_main it) = 1
  /\ all_before is_reset is_final_report (it_main it)
  /\ In (EIsOver (is_over w i)) (it_main it)
  /\ (is_over w i = false ->
      F32.ltb (nth_ebn0 p (ebn0_min p) (S i)) (ebn0_max p) = true ->
      exists it', nth_error (iters r) (S i) = Some it'
                  /\ it_ebn0 it' = nth_ebn0 p (ebn0_min p) (S i))
  /\ (is_over w i = true -> List.length (iters r) = S i).
Proof.
  intros Hparse Hmain Hi p.
  destruct (run_nth fuel w r Hparse Hmain i it Hi) as (_ & _ & _ & Hm & Hw & Hd).
  destruct (main_ok fuel w r Hparse Hmain) as (Hs & _).
  destruct (sweep_nth fuel w (params_of w) fuel _ _ _ Hs i it Hi)
    as (_ & _ & Hover & Hnext).
  simpl in Hover, Hnext.
  destruct (th_done_verif_sound _ _ _ _ Hw) as (n0 & _ & Hstop & Hbefore & Ht).
  simpl in Hstop.
  split; [|split; [|split; [|split; [|split; [|split]]]]].
  - intros n Hn. exists n0. split; [|exact Ht].
    destruct (Nat.le_gt_cases n0 n) as [Hle | Hgt]; [assumption|].
    assert (stop_requested (poll w i n) = false) as E by (apply Hbefore; lia).
    unfold stop_requested in E. rewrite Hn, orb_true_r in E. discriminate.
  - rewrite Hd, Ht. apply is_done_after_set.
  - rewrite Hm. reflexivity.
  - rewrite Hm. now apply body_order.
  - rewrite Hm. unfold body_events. rewrite !in_app_iff. simpl. tauto.
  - intros Ho Hlt. apply (proj1 (Hnext Ho)) in Hlt.
    destruct (nth_error (iters r) (S i)) as [it'|] eqn:E.
    + exists it'. split; [reflexivity|].
      now destruct (run_nth fuel w r Hparse Hmain (S i) it' E) as (_ & _ & H & _).
    + apply nth_error_None in E. lia.
  - exact Hover.
Qed.

(** ** Termination and exit status *)

Lemma bounded_choice (P : nat -> nat -> Prop) (m : nat) :
  (forall k, k < m -> exists n, P k n) ->
  exists N, forall k, k < m -> exists n, n < N /\ P k n.
Proof.
  induction m as [|m IH]; intros H.
  - exists 0. intros k Hk. lia.
  - destruct IH as (N & HN); [intros k Hk; apply H; lia|].
    destruct (H m (Nat.lt_succ_diag_r m)) as (n & Hn).
    exists (S (Nat.max N n)). intros k Hk.
    destruct (Nat.eq_dec k m) as [-> | Hne].
    + exists n. split; [lia|assumption].
    + destruct (HN k ltac:(lia)) as (n' & Hlt & Hn'). exists n'. split; [lia|assumption].
Qed.

Lemma eleventh_value_fails (w : world) :
  F32.ltb (nth_ebn0 (params_of w) (ebn0_min (params_of w)) 11)
          (ebn0_max (params_of w)) = false.
Proof. vm_compute. reflexivity. Qed.

(** [main] returns when the command line parses and the watchdog of each of
    the (at most eleven) iterations sees its stop condition at some round *)
Lemma main_total (w : world) :
  parsing_failed w = false ->
  (forall k, k < 11 -> exists n, stop_requested (poll w k n) = true) ->
  exists fuel r, main fuel w = Some r.
Proof.
  intros Hp Hw.
  destruct (bounded_choice (fun k n => stop_requested (poll w k n) = true) 11 Hw)
    as (N & HN).
  set (fuel := 12 + N).
  destruct (sweep_total fuel w (params_of w) fuel 0 (ebn0_min (params_of w)) 11)
    as (its & Hits).
  - unfold fuel. lia.
  - apply eleventh_value_fails.
  - intros j Hj. destruct (HN j Hj) as (n & Hn & Hs).
    apply (th_done_verif_total (poll w (0 + j)) n fuel); [exact Hs | unfold fuel; lia].
  - exists fuel. unfold main. rewrite (init_params_ok w Hp).
    destruct (init_modules w) as [m t2]. rewrite Hits. eexists. reflexivity.
Qed.

(** C6: when the command line does not parse, the program prints the help,
    the warnings and the errors and exits with status 1, having built no
    module, constructed no block and run none.  When it parses, every run
    that returns returns 0, however the sweep ended, and the program does
    return as soon as the watchdog of every iteration leaves its loop. *)
Theorem exit_status (w : world) :
  (parsing_failed w = true ->
   forall fuel,
   exists r, main fuel w = Some r
             /\ exit_code r = 1%Z
             /\ trace r = [EBanner; EParse; EPrintHelp; EPrintWarnings;
                           EPrintErrors; EExit 1]
             /\ count is_build (trace r) = 0
             /\ count is_block_new (trace r) = 0
             /\ count is_run (trace r) = 0)
  /\ (parsing_failed w = false ->
      (forall fuel r, main fuel w = Some r -> exit_code r = 0%Z)
      /\ ((forall k, k < 11 -> exists n, stop_requested (poll w k n) = true) ->
          exists fuel r, main fuel w = Some r /\ exit_code r = 0%Z)).
Proof.
  split.
  - intros Hp fuel. unfold main, init_params. rewrite Hp.
    eexists. split; [reflexivity|]. repeat split.
  - intros Hp. split.
    + intros fuel r Hr. now destruct (main_ok fuel w r Hp Hr) as (_ & _ & _ & H).
    + intros Hw. destruct (main_total w Hp Hw) as (fuel & r & Hr).
      exists fuel, r. split; [assumption|].
      now destruct (main_ok fuel w r Hp Hr) as (_ & _ & _ & H).
Qed.

(** ** The values of the sweep *)

Lemma map_by_index {A B : Type} (g : A -> B) (f : nat -> B) (l : list A) :
  forall k,
    (forall i a, nth_error l i = Some a -> g a = f (k + i)) ->
    map g l = map f (seq k (List.length l)).
Proof.
  induction l as [|a l IH]; intros k H; [reflexivity|].
  simpl. f_equal.
  - rewrite (H 0 a eq_refl). now rewrite Nat.add_0_r.
  - apply IH. intros i b Hi. replace (S k + i) with (k + S i) by lia.
    now apply H.
Qed.

(** the literals of [struct params] as binary32 values; 10.01 is not a
    binary32 value, the literal is the nearest one, less than half a unit in
    the last place (2^-20) away *)
Lemma params_ctor_values :
  ebn0_min params_ctor = S754_zero false
  /\ ebn0_step params_ctor = S754_finite false 8388608 (-23)
  /\ ebn0_max params_ctor = S754_finite false 10496246 (-20)
  /\ (2 * Z.abs (10496246 * 100 - 1001 * 2 ^ 20) < 100)%Z.
Proof. vm_compute. repeat split. Qed.

Lemma default_prefix (w : world) (n : nat) :
  n <= 11 ->
  map (nth_ebn0 (params_of w) (ebn0_min (params_of w))) (seq 0 n)
  = firstn n default_values
  /\ increasing (firstn n default_values) = true
  /\ (n < 11 ->
      F32.ltb (nth_ebn0 (params_of w) (ebn0_min (params_of w)) n)
              (ebn0_max (params_of w)) = true).
Proof.
  intros Hn.
  do 12 (destruct n as [|n];
         [vm_compute; repeat split; intros; reflexivity || lia|]).
  lia.
Qed.

(** C7, amended: the sweep visits [min], [min + step], [(min + step) + step],
    ... ([float] additions), each value that is reached being less than
    [max], one run of the eight blocks per value, and it goes on until a
    value is not less than [max] unless the terminal reports [is_over]
    after an iteration, which then is the last one.  With the values of
    [struct params] the values visited are increasing and an initial
    segment of 0, 1, ..., 10; they are all eleven when [is_over] is never
    reported. *)
Theorem sweep_values :
  (forall (p : params) (fuel wfuel : nat) (w : world) (its : list iteration),
      sweep fuel wfuel w p 0 (ebn0_min p) = Some its ->
      (forall i it,
          nth_error its i = Some it ->
          it_ebn0 it = nth_ebn0 p (ebn0_min p) i
          /\ F32.ltb (it_ebn0 it) (ebn0_max p) = true
          /\ filter is_run (it_main it) = map ERun blocks
          /\ (is_over w i = true -> List.length its = S i))
      /\ ((forall i, i < List.length its -> is_over w i = false) ->
          F32.ltb (nth_ebn0 p (ebn0_min p) (List.length its)) (ebn0_max p)
          = false))
  /\ (forall (fuel : nat) (w : world) (r : run),
         parsing_failed w = false ->
         main fuel w = Some r ->
         (exists n, n <= 11 /\ visited r = firstn n default_values)
         /\ increasing (visited r) = true
         /\ ((forall i, i < List.length (iters r) -> is_over w i = false) ->
             visited r = default_values)).
Proof.
  split.
  - intros p fuel wfuel w its Hs. split.
    + intros i it Hi.
      destruct (sweep_nth wfuel w p fuel _ _ _ Hs i it Hi) as (Hlt & Hb & Ho & _).
      apply loop_body_inv in Hb. destruct Hb as (_ & He & Hm & _).
      simpl in Ho. rewrite He, Hm.
      split; [reflexivity|]. split; [assumption|].
      split; [apply body_runs | assumption].
    + intros Ho. apply (sweep_end wfuel w p fuel 0 _ _ Hs). exact Ho.
  - intros fuel w r Hp Hr.
    destruct (main_ok fuel w r Hp Hr) as (Hs & _).
    assert (List.length (iters r) <= 11) as Hlen.
    { destruct (Nat.le_gt_cases (List.length (iters r)) 11) as [H | H];
        [assumption|].
      destruct (nth_error (iters r) 11) as [it|] eqn:E.
      - destruct (run_nth fuel w r Hp Hr 11 it E) as (Hlt & _).
        rewrite eleventh_value_fails in Hlt. discriminate.
      - apply nth_error_None in E. lia. }
    assert (visited r
            = map (nth_ebn0 (params_of w) (ebn0_min (params_of w)))
                  (seq 0 (List.length (iters r)))) as Hv.
    { unfold visited. apply map_by_index. intros i it Hi.
      now destruct (run_nth fuel w r Hp Hr i it Hi) as (_ & _ & H & _). }
    destruct (default_prefix w _ Hlen) as (Hpre & Hinc & Hnext).
    rewrite Hpre in Hv. split; [|split].
    + exists (List.length (iters r)). now split.
    + now rewrite Hv.
    + intros Ho.
      pose proof (sweep_end fuel w (params_of w) fuel 0 _ _ Hs Ho) as Hend.
      destruct (Nat.eq_dec (List.length (iters r)) 11) as [E | E].
      * now rewrite Hv, E.
      * rewrite Hnext in Hend by lia. discriminate.
Qed.

(** the claim as it is written fails when the user interrupts twice in the
    first iteration: the value 1 is less than the maximum and is not
    visited *)
Lemma double_interrupt_skips_values :
  parsing_failed abort_world = false
  /\ main 2 abort_world = Some (run_of_main 2 abort_world)
  /\ visited (run_of_main 2 abort_world) = [F32.of_Z 0]
  /\ F32.ltb (F32.of_Z 1) (ebn0_max (params_of abort_world)) = true
  /\ visited (run_of_main 2 abort_world) <> default_values.
Proof.
  vm_compute. repeat split; try reflexivity. intros H. discriminate H.
Qed.

(** ** The handler of the monitor *)

(** [init_modules] registers the reset of the decoder with the monitor,
    once, after the monitor is built.  (Whether the blocks call it is a
    matter of [common/Block.hpp].) *)
Lemma handler_registered (w : world) :
  count is_add_handler (snd (init_modules w)) = 1.
Proof.
  rewrite init_modules_snd. unfold count.
  rewrite !filter_app, (filter_none is_add_handler (task_events w)).
  - reflexivity.
  - generalize (task_events_tasks w). apply Forall_impl.
    intros [] He; try discriminate He. reflexivity.
Qed.

(** ** The theorems at work on concrete runs *)

Lemma watchdog_per_iteration_witness :
  nth_error (iters (run_of_main 12 interrupt_world)) 1
  = Some (nth 1 (iters (run_of_main 12 interrupt_world)) no_iteration)
  /\ count is_spawn
       (it_main (nth 1 (iters (run_of_main 12 interrupt_world)) no_iteration)) = 1
  /\ it_watchdog (nth 1 (iters (run_of_main 12 interrupt_world)) no_iteration)
     = [WPollFe false; WPollInterrupt false;
        WPollFe false; WPollInterrupt true; WSetDone]
  /\ it_done (nth 1 (iters (run_of_main 12 interrupt_world)) no_iteration)
     = true.
Proof.
  assert (parsing_failed interrupt_world = false) as Hp by reflexivity.
  assert (main 12 interrupt_world = Some (run_of_main 12 interrupt_world)) as Hm
      by (vm_compute; reflexivity).
  assert (nth_error (iters (run_of_main 12 interrupt_world)) 1
          = Some (nth 1 (iters (run_of_main 12 interrupt_world)) no_iteration))
    as Hi by (vm_compute; reflexivity).
  destruct (watchdog_per_iteration 12 interrupt_world _ Hp Hm 1 _ Hi)
    as (Hspawn & _ & _ & n & (Hstop & Hbefore) & _ & _ & _ & Hdone & _
        & Hshape & _).
  assert (n = 1) as ->.
  { destruct n as [|[|n]]; [discriminate Hstop | reflexivity |].
    specialize (Hbefore 1 ltac:(lia)). discriminate Hbefore. }
  split; [exact Hi|]. split; [exact Hspawn|]. split; [exact Hshape | exact Hdone].
Defined.

Lemma join_then_reset_witness :
  main 12 quiet_world = Some (run_of_main 12 quiet_world)
  /\ quiet_at config_or_report (trace (run_of_main 12 quiet_world)).
Proof.
  assert (parsing_failed quiet_world = false) as Hp by reflexivity.
  assert (main 12 quiet_world = Some (run_of_main 12 quiet_world)) as Hm
      by (vm_compute; reflexivity).
  split; [exact Hm|].
  exact (proj2 (join_then_reset 12 quiet_world _ Hp Hm)).
Defined.

Lemma interrupt_semantics_witness :
  snd (poll interrupt_world 1 1) = true
  /\ is_over interrupt_world 1 = false
  /\ it_done (nth 1 (iters (run_of_main 12 interrupt_world)) no_iteration) = true
  /\ exists it',
      nth_error (iters (run_of_main 12 interrupt_world)) 2 = Some it'
      /\ it_ebn0 it'
         = nth_ebn0 (params_of interrupt_world)
                    (ebn0_min (params_of interrupt_world)) 2.
Proof.
  assert (parsing_failed interrupt_world = false) as Hp by reflexivity.
  assert (main 12 interrupt_world = Some (run_of_main 12 interrupt_world)) as Hm
      by (vm_compute; reflexivity).
  assert (nth_error (iters (run_of_main 12 interrupt_world)) 1
          = Some (nth 1 (iters (run_of_main 12 interrupt_world)) no_iteration))
    as Hi by (vm_compute; reflexivity).
  destruct (interrupt_semantics 12 interrupt_world _ 1 _ Hp Hm Hi)
    as (_ & Hd & _ & _ & _ & Hnext & _).
  split; [reflexivity|]. split; [reflexivity|]. split; [exact Hd|].
  apply Hnext; vm_compute; reflexivity.
Defined.

Lemma noise_before_run_witness :
  nth_error (iters (run_of_main 12 quiet_world)) 10
  = Some (nth 10 (iters (run_of_main 12 quiet_world)) no_iteration)
  /\ all_before is_noise_config is_run
       (it_main (nth 10 (iters (run_of_main 12 quiet_world)) no_iteration)).
Proof.
  assert (parsing_failed quiet_world = false) as Hp by reflexivity.
  assert (main 12 quiet_world = Some (run_of_main 12 quiet_world)) as Hm
      by (vm_compute; reflexivity).
  assert (nth_error (iters (run_of_main 12 quiet_world)) 10
          = Some (nth 10 (iters (run_of_main 12 quiet_world)) no_iteration))
    as Hi by (vm_compute; reflexivity).
  split; [exact Hi|].
  exact (proj1 (proj2 (noise_before_run 12 quiet_world _ Hp Hm 10 _ Hi))).
Defined.


Lemma exit_status_witness :
  (parsing_failed bad_args_world = true
   /\ exists r, main 0 bad_args_world = Some r /\ exit_code r = 1%Z)
  /\ (parsing_failed quiet_world = false
      /\ exists fuel r, main fuel quiet_world = Some r /\ exit_code r = 0%Z).
Proof.
  split.
  - split; [reflexivity|].
    destruct (proj1 (exit_status bad_args_world) eq_refl 0) as (r & Hr & Hc & _).
    exists r. now split.
  - split; [reflexivity|].
    apply (proj2 (exit_status quiet_world) eq_refl).
    intros k _. exists 2. reflexivity.
Defined.

Lemma sweep_values_witness :
  main 12 interrupt_world = Some (run_of_main 12 interrupt_world)
  /\ visited (run_of_main 12 interrupt_world) = default_values.
Proof.
  assert (parsing_failed interrupt_world = false) as Hp by reflexivity.
  assert (main 12 interrupt_world = Some (run_of_main 12 interrupt_world)) as Hm
      by (vm_compute; reflexivity).
  split; [exact Hm|].
  apply (proj2 (proj2 (proj2 sweep_values 12 interrupt_world _ Hp Hm))).
  intros i _. reflexivity.
Defined.


(** * Further properties of the code *)

(** ** The setter calls of [init_modules] *)

Lemma module_calls_S (m : module_id) (i n : nat) :
  module_calls m i (S n)
  = map (ETask m i) configure_calls ++ module_calls m (S i) n.
Proof. reflexivity. Qed.

Lemma config_tasks_events (m : module_id) (ts : list Task) :
  forall i, snd (config_tasks m i ts) = module_calls m i (List.length ts).
Proof.
  induction ts as [|t ts IH]; intros i; [reflexivity|].
  cbn [config_tasks]. rewrite config_task_eq. specialize (IH (S i)).
  destruct (config_tasks m (S i) ts) as [ts' evs]. cbn [snd] in *.
  cbn [Datatypes.length]. now rewrite module_calls_S, IH.
Qed.

Lemma flat_map_ext_in {A B : Type} (f g : A -> list B) (l : list A) :
  (forall a, In a l -> f a = g a) -> flat_map f l = flat_map g l.
Proof.
  induction l as [|a l IH]; intros H; [reflexivity|].
  simpl. rewrite (H a) by (now left). f_equal. apply IH.
  intros b Hb. apply H. now right.
Qed.

Lemma config_modules_events (l : list module_id) :
  NoDup l ->
  forall st,
    snd (config_modules l st)
    = flat_map (fun m => module_calls m 0 (List.length (st m))) l.
Proof.
  induction 1 as [|x l Hx Hl IH]; intros st; [reflexivity|].
  cbn [config_modules flat_map].
  pose proof (config_tasks_events x (st x) 0) as He.
  destruct (config_tasks x 0 (st x)) as [ts e1]. cbn [snd] in He. subst e1.
  specialize (IH (upd x ts st)).
  destruct (config_modules l (upd x ts st)) as [st' e2]. cbn [snd] in *.
  rewrite IH. f_equal. apply flat_map_ext_in. intros m Hm.
  unfold upd. destruct (module_id_eqb m x) eqn:E; [|reflexivity].
  apply module_id_eqb_eq in E. subst. contradiction.
Qed.

Lemma count_module_calls (m : module_id) (n : nat) :
  forall i, count is_task (module_calls m i n) = 5 * n.
Proof.
  induction n as [|n IH]; intros i; [reflexivity|].
  rewrite module_calls_S, count_app, IH.
  change (count is_task (map (ETask m i) configure_calls)) with 5. lia.
Qed.

Lemma count_flat_map {A B : Type} (Q : B -> bool) (f : A -> list B)
  (l : list A) :
  count Q (flat_map f l) = list_sum (map (fun a => count Q (f a)) l).
Proof.
  induction l as [|a l IH]; [reflexivity|].
  simpl. now rewrite count_app, IH.
Qed.

Lemma list_sum_scale {A : Type} (c : nat) (f : A -> nat) (l : list A) :
  list_sum (map (fun a => c * f a) l) = c * list_sum (map f l).
Proof. induction l as [|a l IH]; simpl; lia. Qed.

(** X1: the loop of [init_modules] makes the five setter calls of its body
    on each task, module after module in the order of [m.list] and task
    after task: five calls per task that was built, and no other call on a
    task. *)
Theorem task_calls_exact (w : world) :
  task_events w
  = flat_map (fun m => module_calls m 0 (List.length (built w m))) m_list
  /\ count is_task (snd (init_modules w))
     = 5 * list_sum (map (fun m => List.length (built w m)) m_list).
Proof.
  assert (task_events w
          = flat_map (fun m => module_calls m 0 (List.length (built w m))) m_list)
    as E by (apply config_modules_events, m_list_NoDup).
  split; [exact E|].
  rewrite init_modules_snd, !count_app, E, count_flat_map.
  rewrite (map_ext _ (fun m => 5 * List.length (built w m)))
    by (intros m; apply count_module_calls).
  rewrite list_sum_scale. change (count is_task [EAddHandlerCheck]) with 0.
  match goal with |- count is_task ?l + _ = _ =>
    change (count is_task l) with 0 end.
  lia.
Qed.

(** X2: running the configuration loop of [init_modules] once more changes
    no task; the tasks of the modules of [m.list] have debug limit 16, and
    what is not in [m.list] (the codec object) is left as it was built. *)
Theorem config_idempotent (w : world) (m : module_id) :
  fst (config_modules m_list (fst (init_modules w))) m = fst (init_modules w) m
  /\ (In m m_list ->
      Forall (fun t => debug_limit t = 16%Z) (fst (init_modules w) m))
  /\ fst (init_modules w) MCodec = built w MCodec.
Proof.
  assert (~ In MCodec m_list) as Hc by (simpl; intuition discriminate).
  assert (fst (init_modules w) MCodec = built w MCodec) as Hcodec.
  { unfold init_modules.
    pose proof (config_modules_other m_list (built w) MCodec Hc) as H.
    now destruct (config_modules m_list (built w)). }
  split; [|split; [|exact Hcodec]].
  - assert (In m m_list \/ ~ In m m_list) as [Hm | Hm]
        by (destruct m; simpl;
            solve [left; tauto | right; intuition discriminate]).
    + rewrite (config_modules_get m_list _ m m_list_NoDup Hm).
      rewrite (init_modules_fst w m Hm), map_map. now apply map_ext.
    + now apply config_modules_other.
  - intros Hm. rewrite (init_modules_fst w m Hm).
    apply Forall_forall. intros t Ht. apply in_map_iff in Ht as (t0 & <- & _).
    reflexivity.
Qed.

Lemma config_idempotent_witness :
  In MMonitor m_list
  /\ Forall (fun t => debug_limit t = 16%Z)
            (fst (init_modules quiet_world) MMonitor).
Proof.
  assert (In MMonitor m_list) as Hm by (simpl; tauto).
  split; [exact Hm|].
  exact (proj1 (proj2 (config_idempotent quiet_world MMonitor)) Hm).
Defined.

(** ** The rounds of the watchdog *)

(** X3: when the watchdog leaves its loop, what it has done is: some number
    of rounds in which it asked the monitor and then the terminal and both
    said no; one round in which either the monitor said yes, and then the
    terminal is not asked, or the monitor said no and the terminal yes; the
    write of [is_done].  So the monitor is asked once per round and the
    terminal once per round but the last when the monitor ends the loop. *)
Theorem watchdog_trace_shape (fuel : nat) (obs : nat -> bool * bool)
  (t : list wevent) :
  th_done_verif fuel obs 0 = Some t ->
  exists n,
    n < fuel
    /\ first_stop obs n
    /\ t = silent_rounds n ++ stopping_round (fst (obs n)) ++ [WSetDone]
    /\ count is_poll_fe t = S n
    /\ count is_poll_interrupt t = (if fst (obs n) then n else S n).
Proof.
  intros H.
  destruct (th_done_verif_sound _ _ _ _ H) as (n & Hn & Hs & Hb & ->).
  simpl in Hs. exists n. split; [assumption|].
  split; [split; [assumption | intros m Hm; apply Hb; lia]|].
  assert (round_events (obs n) = stopping_round (fst (obs n))) as Er.
  { unfold round_events, stopping_round, stop_requested in *.
    destruct (fst (obs n)); [reflexivity|]. simpl in Hs. now rewrite Hs. }
  rewrite rounds_snoc, (rounds_silent obs n 0) by (intros; apply Hb; lia).
  simpl (0 + n). rewrite Er, <- app_assoc.
  split; [reflexivity|].
  destruct (count_silent_rounds n) as [C1 C2].
  rewrite !count_app, C1, C2. unfold stopping_round.
  destruct (fst (obs n)); cbn; lia.
Qed.

Lemma watchdog_trace_shape_witness :
  th_done_verif 5 (poll interrupt_world 1) 0
  = Some [WPollFe false; WPollInterrupt false;
          WPollFe false; WPollInterrupt true; WSetDone]
  /\ exists n, first_stop (poll interrupt_world 1) n.
Proof.
  assert (th_done_verif 5 (poll interrupt_world 1) 0
          = Some [WPollFe false; WPollInterrupt false;
                  WPollFe false; WPollInterrupt true; WSetDone]) as H
      by reflexivity.
  split; [exact H|].
  destruct (watchdog_trace_shape 5 (poll interrupt_world 1) _ H)
    as (n & _ & Hn & _).
  exists n. exact Hn.
Defined.

(** ** How far the sweep goes *)

Lemma iters_at_most_eleven (fuel : nat) (w : world) (r : run) :
  parsing_failed w = false -> main fuel w = Some r ->
  List.length (iters r) <= 11.
Proof.
  intros Hp Hr.
  destruct (Nat.le_gt_cases (List.length (iters r)) 11) as [H | H];
    [assumption|].
  destruct (nth_error (iters r) 11) as [it|] eqn:E.
  - destruct (run_nth fuel w r Hp Hr 11 it E) as (Hlt & _).
    rewrite eleventh_value_fails in Hlt. discriminate.
  - apply nth_error_None in E. lia.
Qed.

Lemma visited_prefix (fuel : nat) (w : world) (r : run) :
  parsing_failed w = false -> main fuel w = Some r ->
  visited r = firstn (List.length (iters r)) default_values.
Proof.
  intros Hp Hr.
  destruct (default_prefix w _ (iters_at_most_eleven fuel w r Hp Hr))
    as (<- & _).
  unfold visited. apply map_by_index. intros i it Hi.
  now destruct (run_nth fuel w r Hp Hr i it Hi) as (_ & _ & H & _).
Qed.

(** the sweep reaches iteration [k] when [k] is among the eleven and
    [is_over] was not reported before *)
Lemma iteration_reached (fuel : nat) (w : world) (r : run) (k : nat) :
  parsing_failed w = false -> main fuel w = Some r ->
  k < 11 -> (forall j, j < k -> is_over w j = false) ->
  k < List.length (iters r).
Proof.
  intros Hp Hr Hk Ho.
  destruct (Nat.lt_ge_cases k (List.length (iters r))) as [H | H];
    [assumption|].
  destruct (main_ok fuel w r Hp Hr) as (Hs & _).
  assert (F32.ltb (nth_ebn0 (params_of w) (ebn0_min (params_of w))
                            (List.length (iters r)))
                  (ebn0_max (params_of w)) = false) as Hend
      by (apply (sweep_end fuel w (params_of w) fuel 0 _ _ Hs);
          intros i Hi; apply Ho; simpl; lia).
  destruct (default_prefix w (List.length (iters r)) ltac:(lia))
    as (_ & _ & Hnext).
  rewrite Hnext in Hend by lia. discriminate.
Qed.

(** X4: the sweep ends with the first iteration after which the terminal
    reports [is_over]: when that is iteration [k] (of the eleven), the run
    has [k + 1] iterations and the values visited are 0, 1, ..., [k]. *)
Theorem sweep_ends_at_first_over (fuel : nat) (w : world) (r : run) (k : nat) :
  parsing_failed w = false -> main fuel w = Some r ->
  k < 11 ->
  is_over w k = true ->
  (forall j, j < k -> is_over w j = false) ->
  List.length (iters r) = S k
  /\ visited r = firstn (S k) default_values.
Proof.
  intros Hp Hr Hk Hover Hbefore.
  pose proof (iteration_reached fuel w r k Hp Hr Hk Hbefore) as Hlen.
  destruct (main_ok fuel w r Hp Hr) as (Hs & _).
  destruct (nth_error (iters r) k) as [it|] eqn:E;
    [| apply nth_error_None in E; lia].
  destruct (sweep_nth fuel w (params_of w) fuel _ _ _ Hs k it E)
    as (_ & _ & Hlast & _).
  simpl in Hlast. specialize (Hlast Hover).
  split; [exact Hlast|].
  rewrite (visited_prefix fuel w r Hp Hr). now rewrite Hlast.
Qed.

Lemma sweep_ends_at_first_over_witness :
  main 2 abort_world = Some (run_of_main 2 abort_world)
  /\ is_over abort_world 0 = true
  /\ List.length (iters (run_of_main 2 abort_world)) = 1.
Proof.
  assert (main 2 abort_world = Some (run_of_main 2 abort_world)) as Hm
      by (vm_compute; reflexivity).
  split; [exact Hm|]. split; [reflexivity|].
  apply (sweep_ends_at_first_over 2 abort_world _ 0 eq_refl Hm);
    [lia | reflexivity | intros j Hj; lia].
Defined.

(** X5: in an iteration that the sweep reaches and in which neither the
    monitor reaches its limit nor the user interrupts, the watchdog never
    leaves its loop, so that [is_done] is never set, and [main] does not
    return, whatever the fuel. *)
Theorem sweep_hangs_without_stop (w : world) (k : nat) :
  parsing_failed w = false ->
  k < 11 ->
  (forall j, j < k -> is_over w j = false) ->
  (forall n, stop_requested (poll w k n) = false) ->
  forall fuel,
    th_done_verif fuel (poll w k) 0 = None /\ main fuel w = None.
Proof.
  intros Hp Hk Ho Hnever fuel.
  assert (th_done_verif fuel (poll w k) 0 = None) as Hspin
      by (apply th_done_verif_spinning; intros m _; apply Hnever).
  split; [exact Hspin|].
  destruct (main fuel w) as [r|] eqn:Hr; [exfalso | reflexivity].
  pose proof (iteration_reached fuel w r k Hp Hr Hk Ho) as Hlen.
  destruct (nth_error (iters r) k) as [it|] eqn:E;
    [| apply nth_error_None in E; lia].
  destruct (run_nth fuel w r Hp Hr k it E) as (_ & _ & _ & _ & Hw & _).
  rewrite Hspin in Hw. discriminate.
Qed.

Lemma sweep_hangs_without_stop_witness :
  parsing_failed stuck_world = false
  /\ th_done_verif 50 (poll stuck_world 0) 0 = None
  /\ main 50 stuck_world = None.
Proof.
  split; [reflexivity|].
  apply (sweep_hangs_without_stop stuck_world 0);
    [reflexivity | lia | intros j Hj; lia | intros n; reflexivity].
Defined.

(** ** Counting the calls *)

Lemma count_flat_map_const {A : Type} (Q : event -> bool)
  (f : A -> list event) (l : list A) (c : nat) :
  Forall (fun a => count Q (f a) = c) l ->
  count Q (flat_map f l) = c * List.length l.
Proof.
  induction 1 as [|a l Ha _ IH]; simpl; [unfold count; simpl; lia|].
  rewrite count_app, Ha, IH. lia.
Qed.




(** ** Lifetimes of the objects *)

Lemma object_eqb_eq (a b : object) : object_eqb a b = true <-> a = b.
Proof.
  split.
  - destruct a, b; simpl; intros H; try discriminate H; try reflexivity.
    + now apply module_id_eqb_eq in H as ->.
    + now apply Nat.eqb_eq in H as ->.
    + now apply block_id_eqb_eq in H as ->.
  - intros ->. destruct b; simpl; try reflexivity.
    + now apply module_id_eqb_eq.
    + apply Nat.eqb_refl.
    + now apply block_id_eqb_eq.
Qed.

Lemma alive_In (o : object) (live : list object) :
  alive o live = true <-> In o live.
Proof.
  unfold alive. rewrite existsb_exists. split.
  - intros (x & Hx & E). apply object_eqb_eq in E. now subst.
  - intros H. exists o. split; [assumption | now apply object_eqb_eq].
Qed.

Lemma alive_app (o : object) (l1 l2 : list object) :
  alive o (l1 ++ l2) = alive o l1 || alive o l2.
Proof. apply existsb_app. Qed.

Lemma alive_filter (o : object) (f : object -> bool) (live : list object) :
  alive o (filter f live) = alive o live && f o.
Proof.
  unfold alive. induction live as [|x live IH]; [reflexivity|].
  simpl. destruct (object_eqb o x) eqn:E.
  - apply object_eqb_eq in E. subst x. destruct (f o) eqn:Ef; simpl.
    + now rewrite (proj2 (object_eqb_eq o o) eq_refl).
    + rewrite IH. apply andb_false_r.
  - destruct (f x); simpl; [rewrite E; simpl|]; exact IH.
Qed.

Lemma filter_all {A : Type} (f : A -> bool) (l : list A) :
  (forall a, f a = true) -> filter f l = l.
Proof.
  intros H. induction l as [|a l IH]; [reflexivity|].
  simpl. now rewrite H, IH.
Qed.

Lemma step_live_inv (live live' : list object) (e : event) :
  step_live live e = Some live' ->
  (forall o, In o (uses e) -> alive o live = true)
  /\ (forall o, In o (creates e) -> alive o live = false)
  /\ live' = creates e ++ filter (fun o => negb (alive o (ends e))) live.
Proof.
  unfold step_live.
  destruct (forallb (fun o => alive o live) (uses e)) eqn:E1; [|discriminate].
  destruct (forallb (fun o => negb (alive o live)) (creates e)) eqn:E2;
    [|discriminate].
  simpl. intros H. injection H as <-.
  rewrite forallb_forall in E1, E2.
  repeat split; [exact E1|].
  intros o Ho. now apply negb_true_iff, E2.
Qed.

Lemma run_live_app (l1 l2 : list event) :
  forall live,
    run_live (l1 ++ l2) live
    = match run_live l1 live with
      | Some live' => run_live l2 live'
      | None => None
      end.
Proof.
  induction l1 as [|e l1 IH]; intros live; [reflexivity|].
  simpl. destruct (step_live live e); [apply IH | reflexivity].
Qed.

(** a call only uses what is alive before the run or was created earlier *)
Lemma run_live_uses (l : list event) :
  forall live final j e o,
    run_live l live = Some final ->
    nth_error l j = Some e -> In o (uses e) ->
    alive o live = true
    \/ exists i e', i < j /\ nth_error l i = Some e' /\ In o (creates e').
Proof.
  induction l as [|x l IH]; intros live final j e o H Hj Ho;
    [destruct j; discriminate|].
  simpl in H. destruct (step_live live x) as [live'|] eqn:Es; [|discriminate].
  destruct (step_live_inv _ _ _ Es) as (Hu & _ & ->).
  destruct j as [|j].
  - injection Hj as ->. left. now apply Hu.
  - simpl in Hj. destruct (IH _ _ j e o H Hj Ho) as [Ha | (i & e' & Hi & He' & Hc)].
    + rewrite alive_app, alive_filter in Ha.
      apply orb_true_iff in Ha as [Ha | Ha].
      * right. exists 0, x. split; [lia|]. split; [reflexivity|].
        now apply alive_In.
      * left. now apply andb_true_iff in Ha as [Ha _].
    + right. exists (S i), e'. split; [lia|]. now split.
Qed.

(** what is alive is not created again before it is ended *)
Lemma run_live_creates (l : list event) :
  forall live final j e o,
    run_live l live = Some final ->
    alive o live = true ->
    nth_error l j = Some e -> In o (creates e) ->
    exists k e', k < j /\ nth_error l k = Some e' /\ In o (ends e').
Proof.
  induction l as [|x l IH]; intros live final j e o H Ha Hj Ho;
    [destruct j; discriminate|].
  simpl in H. destruct (step_live live x) as [live'|] eqn:Es; [|discriminate].
  destruct (step_live_inv _ _ _ Es) as (_ & Hc & ->).
  destruct j as [|j].
  - injection Hj as ->. rewrite (Hc o Ho) in Ha. discriminate.
  - simpl in Hj. destruct (alive o (ends x)) eqn:Ee.
    + exists 0, x. split; [lia|]. split; [reflexivity|]. now apply alive_In.
    + destruct (IH _ _ j e o H) as (k & e' & Hk & He' & Hend); try assumption.
      * rewrite alive_app, alive_filter, Ha, Ee. apply orb_true_r.
      * exists (S k), e'. split; [lia|]. now split.
Qed.

Lemma ends_no_creates (e : event) (o : object) :
  In o (ends e) -> creates e = [].
Proof. destruct e; simpl; intros H; try contradiction; reflexivity. Qed.

(** what has been ended is not used again before it is created anew *)
Lemma run_live_ended (l : list event) :
  forall live final i j e e' o,
    run_live l live = Some final ->
    i < j ->
    nth_error l i = Some e -> In o (ends e) ->
    nth_error l j = Some e' -> In o (uses e') ->
    exists k e'', i < k < j /\ nth_error l k = Some e'' /\ In o (creates e'').
Proof.
  induction l as [|x l IH]; intros live final i j e e' o H Hij Hi He Hj Ho;
    [destruct i; discriminate|].
  simpl in H. destruct (step_live live x) as [live'|] eqn:Es; [|discriminate].
  destruct j as [|j]; [lia|]. simpl in Hj.
  destruct i as [|i].
  - injection Hi as ->.
    destruct (step_live_inv _ _ _ Es) as (_ & _ & ->).
    rewrite (ends_no_creates _ _ He) in H. simpl in H.
    destruct (run_live_uses l _ _ j e' o H Hj Ho)
      as [Ha | (k & e'' & Hk & He'' & Hc)].
    + rewrite alive_filter in Ha. apply andb_true_iff in Ha as [_ Ha].
      apply alive_In in He. rewrite He in Ha. discriminate.
    + exists (S k), e''. split; [lia|]. now split.
  - simpl in Hi.
    destruct (IH _ _ i j e e' o H ltac:(lia) Hi He Hj Ho)
      as (k & e'' & Hk & He'' & Hc).
    exists (S k), e''. split; [lia|]. now split.
Qed.

(** what is created is not created again before it is ended *)
Lemma run_live_once (l : list event) :
  forall live final i j e e' o,
    run_live l live = Some final ->
    i < j ->
    nth_error l i = Some e -> In o (creates e) ->
    nth_error l j = Some e' -> In o (creates e') ->
    exists k e'', i < k < j /\ nth_error l k = Some e'' /\ In o (ends e'').
Proof.
  induction l as [|x l IH]; intros live final i j e e' o H Hij Hi He Hj Ho;
    [destruct i; discriminate|].
  simpl in H. destruct (step_live live x) as [live'|] eqn:Es; [|discriminate].
  destruct j as [|j]; [lia|]. simpl in Hj.
  destruct i as [|i].
  - injection Hi as ->.
    destruct (step_live_inv _ _ _ Es) as (_ & _ & ->).
    destruct (run_live_creates l _ _ j e' o H) as (k & e'' & Hk & He'' & Hc);
      try assumption.
    + rewrite alive_app. apply orb_true_iff. left. now apply alive_In.
    + exists (S k), e''. split; [lia|]. now split.
  - simpl in Hi.
    destruct (IH _ _ i j e e' o H ltac:(lia) Hi He Hj Ho)
      as (k & e'' & Hk & He'' & Hc).
    exists (S k), e''. split; [lia|]. now split.
Qed.

Lemma run_live_tasks (T : list event) (live : list object) :
  Forall (fun e => exists m i c, e = ETask m i c
                                 /\ alive (OModule m) live = true) T ->
  run_live T live = Some live.
Proof.
  induction 1 as [|e T (m & i & c & -> & Hm) _ IH]; [reflexivity|].
  simpl. unfold step_live. simpl. rewrite Hm. simpl.
  rewrite filter_all by reflexivity. exact IH.
Qed.

Lemma run_live_flat_map {A : Type} (f : A -> list event) (l : list A)
  (live : list object) :
  Forall (fun a => run_live (f a) live = Some live) l ->
  run_live (flat_map f l) live = Some live.
Proof.
  induction 1 as [|a l Ha _ IH]; [reflexivity|].
  simpl. now rewrite run_live_app, Ha.
Qed.

Lemma task_events_modules (w : world) :
  Forall (fun e => exists m i c, e = ETask m i c
                                 /\ alive (OModule m) live_configured = true)
         (task_events w).
Proof.
  unfold task_events. rewrite (config_modules_events m_list m_list_NoDup).
  apply Forall_forall. intros e He.
  apply in_flat_map in He as (m & Hm & He). unfold module_calls in He.
  apply in_flat_map in He as (j & _ & He).
  apply in_map_iff in He as (c & <- & _).
  exists m, j, c. split; [reflexivity|].
  simpl in Hm.
  repeat (destruct Hm as [<- | Hm]; [reflexivity|]). destruct Hm.
Qed.

Lemma run_live_trace (fuel : nat) (w : world) (r : run) :
  parsing_failed w = false -> main fuel w = Some r ->
  run_live (trace r) [] = Some live_at_end.
Proof.
  intros Hp Hr.
  assert (run_live before_tasks [] = Some live_configured) as H1
      by (vm_compute; reflexivity).
  assert (run_live (after_tasks w) live_configured = Some live_wired) as H2
      by (vm_compute; reflexivity).
  assert (run_live after_sweep live_wired = Some live_at_end) as H3
      by (vm_compute; reflexivity).
  assert (run_live (flat_map it_main (iters r)) live_wired = Some live_wired)
    as H4.
  { apply run_live_flat_map.
    apply (run_bodies fuel w r Hp Hr
             (fun l => run_live l live_wired = Some live_wired)).
    intros k e. vm_compute. reflexivity. }
  rewrite (run_trace fuel w r Hp Hr).
  rewrite (run_live_app (before_tasks ++ task_events w ++ after_tasks w)).
  rewrite (run_live_app before_tasks), H1.
  rewrite (run_live_app (task_events w)).
  rewrite (run_live_tasks _ _ (task_events_modules w)), H2.
  now rewrite run_live_app, H4.
Qed.

(** X7: along a run, every call is made on objects that an earlier call has
    created (modules before their tasks are configured, wrapped or given the
    noise; the noise object, the reporters and the terminal before they are
    used; blocks before they are bound, run, joined or reset; the watchdog
    before it is joined); nothing is used after it has ended; nothing is
    created twice without being ended in between, so that one watchdog at
    most is running; when [main] returns no watchdog is running and no
    block is left. *)
Theorem lifetimes_respected (fuel : nat) (w : world) (r : run) :
  parsing_failed w = false -> main fuel w = Some r ->
  run_live (trace r) [] = Some live_at_end
  /\ (forall j e o,
         nth_error (trace r) j = Some e -> In o (uses e) ->
         exists i e', i < j /\ nth_error (trace r) i = Some e'
                      /\ In o (creates e'))
  /\ (forall i j e e' o,
         i < j ->
         nth_error (trace r) i = Some e -> In o (ends e) ->
         nth_error (trace r) j = Some e' -> In o (uses e') ->
         exists k e'', i < k < j /\ nth_error (trace r) k = Some e''
                       /\ In o (creates e''))
  /\ (forall i j e e' o,
         i < j ->
         nth_error (trace r) i = Some e -> In o (creates e) ->
         nth_error (trace r) j = Some e' -> In o (creates e') ->
         exists k e'', i < k < j /\ nth_error (trace r) k = Some e''
                       /\ In o (ends e''))
  /\ alive OWatchdog live_at_end = false
  /\ (forall b, alive (OBlock b) live_at_end = false).
Proof.
  intros Hp Hr. pose proof (run_live_trace fuel w r Hp Hr) as H.
  split; [exact H|]. split; [|split; [|split; [|split]]].
  - intros j e o Hj Ho.
    destruct (run_live_uses _ _ _ j e o H Hj Ho) as [Ha | Hex];
      [discriminate Ha | exact Hex].
  - intros i j e e' o. apply (run_live_ended _ _ _ i j e e' o H).
  - intros i j e e' o. apply (run_live_once _ _ _ i j e e' o H).
  - reflexivity.
  - intros b. destruct b; reflexivity.
Qed.

Lemma lifetimes_respected_witness :
  main 12 quiet_world = Some (run_of_main 12 quiet_world)
  /\ run_live (trace (run_of_main 12 quiet_world)) [] = Some live_at_end.
Proof.
  assert (main 12 quiet_world = Some (run_of_main 12 quiet_world)) as Hm
      by (vm_compute; reflexivity).
  split; [exact Hm|].
  exact (proj1 (lifetimes_respected 12 quiet_world _ eq_refl Hm)).
Defined.

(** ** Blocks and the modules of [m.list] *)

(** X8: the blocks wrap tasks of the modules of [m.list], one block per
    module and every module of [m.list] in one block; all the setter calls
    of [init_modules] are made before the first block is constructed, so
    that every task of a module in a block has auto-execution and debug
    off and statistics and automatic allocation on. *)
Theorem blocks_wrap_configured_modules (fuel : nat) (w : world) (r : run) :
  parsing_failed w = false -> main fuel w = Some r ->
  (forall b, In (fst (block_task b)) m_list)
  /\ (forall b b', fst (block_task b) = fst (block_task b') -> b = b')
  /\ (forall m, In m m_list -> exists b, fst (block_task b) = m)
  /\ all_before is_task is_block_new (trace r)
  /\ (forall b,
         Forall (fun t => autoexec t = false /\ debug t = false
                          /\ stats t = true /\ autoalloc t = true)
                (fst (init_modules w) (fst (block_task b)))).
Proof.
  intros Hp Hr.
  assert (forall b, In (fst (block_task b)) m_list) as Hin
      by (intros b; destruct b; simpl; tauto).
  split; [exact Hin|]. split; [|split; [|split]].
  - intros b b'. destruct b, b'; simpl; intros H;
      solve [reflexivity | discriminate H].
  - intros m Hm. simpl in Hm.
    destruct Hm as [<- | [<- | [<- | [<- | [<- | [<- | [<- | [<- | []]]]]]]]];
      [ exists bl_source | exists bl_splitter | exists bl_modulator
      | exists bl_demodulator | exists bl_channel | exists bl_monitor
      | exists bl_encoder | exists bl_decoder ]; reflexivity.
  - rewrite (run_trace fuel w r Hp Hr), <- !app_assoc.
    rewrite (app_assoc before_tasks). apply all_before_app.
    + apply Forall_app. split; [repeat constructor|].
      generalize (task_events_tasks w). apply Forall_impl.
      intros [] He; try discriminate He. reflexivity.
    + apply Forall_app. split; [repeat constructor|].
      apply Forall_app. split; [|repeat constructor].
      apply (sweep_Forall fuel w r Hp Hr). intros k e.
      unfold body_events. simpl. repeat constructor.
  - intros b. rewrite (init_modules_fst w _ (Hin b)).
    apply Forall_forall. intros t Ht. apply in_map_iff in Ht as (t0 & <- & _).
    repeat split.
Qed.

Lemma blocks_wrap_configured_modules_witness :
  main 12 quiet_world = Some (run_of_main 12 quiet_world)
  /\ all_before is_task is_block_new (trace (run_of_main 12 quiet_world)).
Proof.
  assert (main 12 quiet_world = Some (run_of_main 12 quiet_world)) as Hm
      by (vm_compute; reflexivity).
  split; [exact Hm|].
  exact (proj1 (proj2 (proj2 (proj2
    (blocks_wrap_configured_modules 12 quiet_world _ eq_refl Hm))))).
Defined.

(** ** Where the data goes *)

(** X9: in the graph of the eight [bind] calls every output socket that is
    named is read by one input socket only (the splitter feeds the encoder
    and the monitor from two sockets); the monitor is the one block that
    feeds nobody, and every other block feeds it, directly or through the
    chain. *)
Theorem data_ends_at_monitor :
  (forall e1 e2,
      In e1 bind_calls -> In e2 bind_calls ->
      b_producer e1 = b_producer e2 -> b_osock e1 = b_osock e2 -> e1 = e2)
  /\ (forall b, (forall c, ~ edge bind_calls b c) <-> b = bl_monitor)
  /\ (forall b, b <> bl_monitor -> path bind_calls b bl_monitor).
Proof.
  split; [|split].
  - intros e1 e2 H1 H2. simpl in H1, H2.
    repeat (destruct H1 as [<- | H1]);
      try contradiction;
      repeat (destruct H2 as [<- | H2]);
      try contradiction; simpl; intros Hp Hs;
      solve [reflexivity | discriminate Hp | discriminate Hs].
  - intros b. split.
    + intros H. destruct b; try reflexivity; exfalso.
      * apply (H bl_splitter), chain_edge_in; simpl; tauto.
      * apply (H bl_modulator), chain_edge_in; simpl; tauto.
      * apply (H bl_channel), chain_edge_in; simpl; tauto.
      * apply (H bl_demodulator), chain_edge_in; simpl; tauto.
      * apply (H bl_decoder), chain_edge_in; simpl; tauto.
      * apply (H bl_monitor), chain_edge_in; simpl; tauto.
      * apply (H bl_encoder), chain_edge_in; simpl; tauto.
    + intros -> c H. apply edge_rank in H. destruct c; simpl in H; lia.
  - assert (path bind_calls bl_decoder bl_monitor) as Hdec
        by (apply path_edge, chain_edge_in; simpl; tauto).
    assert (path bind_calls bl_demodulator bl_monitor) as Hdem
        by (apply path_step with bl_decoder; [|exact Hdec];
            apply chain_edge_in; simpl; tauto).
    assert (path bind_calls bl_channel bl_monitor) as Hchn
        by (apply path_step with bl_demodulator; [|exact Hdem];
            apply chain_edge_in; simpl; tauto).
    assert (path bind_calls bl_modulator bl_monitor) as Hmod
        by (apply path_step with bl_channel; [|exact Hchn];
            apply chain_edge_in; simpl; tauto).
    assert (path bind_calls bl_encoder bl_monitor) as Henc
        by (apply path_step with bl_modulator; [|exact Hmod];
            apply chain_edge_in; simpl; tauto).
    assert (path bind_calls bl_splitter bl_monitor) as Hspl
        by (apply path_edge, chain_edge_in; simpl; tauto).
    assert (path bind_calls bl_source bl_monitor) as Hsrc
        by (apply path_step with bl_splitter; [|exact Hspl];
            apply chain_edge_in; simpl; tauto).
    intros b Hb. destruct b; solve [assumption | now elim Hb].
Qed.

Lemma data_ends_at_monitor_witness :
  bl_source <> bl_monitor /\ path bind_calls bl_source bl_monitor.
Proof.
  assert (bl_source <> bl_monitor) as H by discriminate.
  split; [exact H|].
  exact (proj2 (proj2 data_ends_at_monitor) bl_source H).
Defined.

(** ** A double interrupt ends the program *)

Lemma sweep_total_over (wfuel : nat) (w : world) (p : params) (fuel : nat) :
  forall k e i,
    i < fuel ->
    is_over w (k + i) = true ->
    (forall j, j <= i ->
               exists t, th_done_verif wfuel (poll w (k + j)) 0 = Some t) ->
    exists its, sweep fuel wfuel w p k e = Some its.
Proof.
  induction fuel as [|fuel IH]; intros k e i Hi Ho Hw; [lia|].
  simpl. destruct (F32.ltb e (ebn0_max p)); [|now exists []].
  unfold loop_body. destruct (Hw 0 ltac:(lia)) as (t & Ht).
  rewrite Nat.add_0_r in Ht. rewrite Ht.
  destruct (is_over w k) eqn:Ek; [eexists; reflexivity|].
  destruct i as [|i]; [rewrite Nat.add_0_r in Ho; congruence|].
  destruct (IH (S k) (F32.add e (ebn0_step p)) i ltac:(lia)) as (its & Hits).
  - now replace (S k + i) with (k + S i) by lia.
  - intros j Hj. replace (S k + j) with (k + S j) by lia. apply Hw. lia.
  - rewrite Hits. eexists. reflexivity.
Qed.

(** X10: when the terminal reports [is_over] after iteration [k], the
    program returns, with status 0 and at most [k + 1] iterations, as soon
    as the watchdogs of the iterations up to [k] see their stop condition;
    what the monitor and the terminal would answer in later iterations does
    not matter. *)
Theorem double_interrupt_ends_program (w : world) (k : nat) :
  parsing_failed w = false ->
  is_over w k = true ->
  (forall j, j <= k -> exists n, stop_requested (poll w j n) = true) ->
  exists fuel r,
    main fuel w = Some r /\ exit_code r = 0%Z /\ List.length (iters r) <= S k.
Proof.
  intros Hp Ho Hw.
  destruct (bounded_choice (fun j n => stop_requested (poll w j n) = true) (S k))
    as (N & HN); [intros j Hj; apply Hw; lia|].
  set (fuel := S k + N).
  destruct (sweep_total_over fuel w (params_of w) fuel 0
              (ebn0_min (params_of w)) k) as (its & Hits).
  - unfold fuel. lia.
  - exact Ho.
  - intros j Hj. destruct (HN j ltac:(lia)) as (n & Hn & Hs).
    apply (th_done_verif_total (poll w (0 + j)) n fuel);
      [exact Hs | unfold fuel; lia].
  - assert (exists r, main fuel w = Some r) as (r & Hr).
    { unfold main. rewrite (init_params_ok w Hp).
      destruct (init_modules w) as [m t2]. rewrite Hits. eexists. reflexivity. }
    exists fuel, r. split; [exact Hr|].
    destruct (main_ok fuel w r Hp Hr) as (Hs & _ & _ & Hc).
    split; [exact Hc|].
    destruct (Nat.le_gt_cases (List.length (iters r)) (S k)) as [H | H];
      [assumption|].
    destruct (nth_error (iters r) k) as [it|] eqn:E;
      [| apply nth_error_None in E; lia].
    destruct (sweep_nth fuel w (params_of w) fuel _ _ _ Hs k it E)
      as (_ & _ & Hlast & _).
    simpl in Hlast. rewrite (Hlast Ho). lia.
Qed.

Lemma double_interrupt_ends_program_witness :
  is_over abort_world 0 = true
  /\ exists fuel r,
      main fuel abort_world = Some r /\ exit_code r = 0%Z
      /\ List.length (iters r) <= 1.
Proof.
  split; [reflexivity|].
  apply (double_interrupt_ends_program abort_world 0);
    [reflexivity | reflexivity |].
  intros j _. exists 1. reflexivity.
Defined.

(** ** The statistics of the tasks *)

Lemma all_before_skip (P Q : event -> bool) (l1 l2 : list event) :
  Forall (fun e => P e = false /\ Q e = false) l1 ->
  all_before P Q l2 -> all_before P Q (l1 ++ l2).
Proof.
  intros H1 H2 i j a b Hi Hj Pa Qb. rewrite Forall_forall in H1.
  destruct (Nat.lt_ge_cases i (List.length l1)) as [Hlt | Hge].
  - rewrite nth_error_app1 in Hi by assumption.
    apply nth_error_In, H1 in Hi. destruct Hi. congruence.
  - destruct (Nat.lt_ge_cases j (List.length l1)) as [Hlt' | Hge'].
    + rewrite nth_error_app1 in Hj by assumption.
      apply nth_error_In, H1 in Hj. destruct Hj. congruence.
    + rewrite nth_error_app2 in Hi, Hj by assumption.
      specialize (H2 _ _ a b Hi Hj Pa Qb). lia.
Qed.

(** X11: the statistics of the tasks are shown once in a run, after the
    sweep however it ended: after every run, join and reset of a block, at
    a point where every block has been joined and reset as often as it was
    run, and before any block is destroyed. *)
Theorem stats_shown_once (fuel : nat) (w : world) (r : run) :
  parsing_failed w = false -> main fuel w = Some r ->
  count is_stats_show (trace r) = 1
  /\ all_before in_flight is_stats_show (trace r)
  /\ quiet_at is_stats_show (trace r)
  /\ all_before is_stats_show is_block_delete (trace r).
Proof.
  intros Hp Hr.
  assert (Forall (fun e => in_flight e = false)
                 (before_tasks ++ task_events w ++ after_tasks w)) as Hidle
      by (apply prelude_Forall; [reflexivity | repeat constructor ..]).
  split; [|split; [|split]].
  - rewrite (run_trace fuel w r Hp Hr), !count_app.
    rewrite (count_none is_stats_show (task_events w)).
    + rewrite (count_flat_map_const is_stats_show it_main (iters r) 0);
        [reflexivity|].
      apply (run_bodies fuel w r Hp Hr (fun l => count is_stats_show l = 0)).
      reflexivity.
    + generalize (task_events_tasks w). apply Forall_impl.
      intros [] He; try discriminate He. reflexivity.
  - rewrite (run_trace fuel w r Hp Hr), app_assoc. apply all_before_app.
    + apply Forall_app. split.
      * apply prelude_Forall; [reflexivity | repeat constructor ..].
      * apply (sweep_Forall fuel w r Hp Hr). intros k e.
        unfold body_events. simpl. repeat constructor.
    + repeat constructor.
  - rewrite (run_trace fuel w r Hp Hr).
    apply quiet_at_app;
      [intros b; now apply idle_settled | now apply idle_quiet |].
    destruct (quiet_at_flat_map is_stats_show it_main (iters r)) as [Hs Hq].
    { apply (run_bodies fuel w r Hp Hr
               (fun l => (forall b, settled b l) /\ quiet_at is_stats_show l)).
      intros k e. split; [intros b; apply body_settled|].
      now apply quiet_fromb_sound. }
    apply quiet_at_app; [assumption | assumption |].
    apply idle_quiet. repeat constructor.
  - rewrite (run_trace fuel w r Hp Hr), app_assoc. apply all_before_skip.
    + apply Forall_app. split.
      * apply prelude_Forall; [split; reflexivity | repeat constructor ..].
      * apply (sweep_Forall fuel w r Hp Hr). intros k e.
        unfold body_events. simpl. repeat constructor.
    + apply all_beforeb_sound. reflexivity.
Qed.

Lemma stats_shown_once_witness :
  main 2 abort_world = Some (run_of_main 2 abort_world)
  /\ count is_stats_show (trace (run_of_main 2 abort_world)) = 1.
Proof.
  assert (main 2 abort_world = Some (run_of_main 2 abort_world)) as Hm
      by (vm_compute; reflexivity).
  split; [exact Hm|].
  exact (proj1 (stats_shown_once 2 abort_world _ eq_refl Hm)).
Defined.
